(** * Notion-to-Google-Drive exporter: batch engine and change detection

    A shallow embedding of [batchProcessor.js], [differentialExporter.js],
    [notionAPI.js], [setting.js] and the one-shot export of the main script,
    with the result sheet of [uiUtiles.js] and the string and list handling
    of [docsConvertor.js] and [imageProcessor.js].

    Conventions of the embedding.
    - The script-property store ([PropertiesService.getScriptProperties()])
      is a record with one optional field per key the scripts use.  A
      property text is represented by the value it denotes: the decimal text
      written by [n.toString()] and read by [parseInt] is a [nat]; a text
      written by [JSON.stringify] is [Encoded v]; any text that [JSON.parse]
      rejects is [Unparseable raw].
    - The services the scripts call ([UrlFetchApp], [DocumentApp]/[DriveApp],
      the settings sheet) are oracles gathered in [Env]; an oracle may raise.
      The clock reading ([new Date().toISOString()]) is an argument of each
      entry point.
    - [Logger.log] and the status-sheet decoration ([updateBatchStatusSheet])
      write nothing the scripts read back and are left out; alerts, the rows
      handed to the result sheet and the completion summary are kept in an
      event log.
    - Calls on [PropertiesService] and [ScriptApp] themselves are assumed not
      to raise. *)

From Stdlib Require Import ZArith List String Ascii Bool Lia.
From stdpp Require Import gmap strings list fin_maps.
Import ListNotations.
Open Scope string_scope.
Open Scope list_scope.
Open Scope nat_scope.

(** ** JavaScript values met in time stamps *)

Inductive JsVal :=
| JUndefined
| JNull
| JNum (z : Z)
| JStr (s : string).

(** [ToBoolean]. *)
Definition truthy (v : JsVal) : bool :=
  match v with
  | JUndefined | JNull => false
  | JNum z => negb (z =? 0)%Z
  | JStr s => negb (String.eqb s "")
  end.

Definition digit_of (c : ascii) : option Z :=
  let n := Z.of_nat (nat_of_ascii c) in
  if ((48 <=? n) && (n <=? 57))%Z then Some (n - 48)%Z else None.

Fixpoint digits_value (acc : Z) (s : string) : option Z :=
  match s with
  | EmptyString => Some acc
  | String c rest =>
      match digit_of c with
      | Some d => digits_value (10 * acc + d)%Z rest
      | None => None
      end
  end.

(** [StringToNumber] on the integer literals; [None] is NaN.  The empty
    string is 0.  Other numeric spellings (fractions, exponents, hexadecimal,
    surrounding blanks) do not occur in the time stamps handled here and are
    read as NaN. *)
Definition StringToNumber (s : string) : option Z :=
  match s with
  | EmptyString => Some 0%Z
  | String "-"%char (String c r) => Z.opp <$> digits_value 0 (String c r)
  | String "+"%char (String c r) => digits_value 0 (String c r)
  | _ => digits_value 0 s
  end.

(** [ToNumber]; [None] is NaN. *)
Definition ToNumber (v : JsVal) : option Z :=
  match v with
  | JUndefined => None
  | JNull => Some 0%Z
  | JNum z => Some z
  | JStr s => StringToNumber s
  end.

(** The relational operator [a < b]: two strings are compared by code unit,
    anything else after [ToNumber], and a NaN operand makes it false. *)
Definition js_lt (a b : JsVal) : bool :=
  match a, b with
  | JStr x, JStr y => String.ltb x y
  | _, _ =>
      match ToNumber a, ToNumber b with
      | Some x, Some y => (x <? y)%Z
      | _, _ => false
      end
  end.

(** [a || b]. *)
Definition js_or (a b : JsVal) : JsVal := if truthy a then a else b.

(** ** Notion pages and processing results *)

Record NotionProperty := mkProperty {
  prop_type : string;
  prop_title : list string   (* plain_text of the entries of [prop.title] *)
}.

Record Page := mkPage {
  page_id : string;
  last_edited_time : JsVal;
  properties : list (string * NotionProperty)
}.

(** The content of a page is opaque to the engine. *)
Definition Blocks := list string.

Inductive Status := Processing | Success | Fail | Skipped.

Definition Status_eqb (a b : Status) : bool :=
  match a, b with
  | Processing, Processing | Success, Success | Fail, Fail | Skipped, Skipped => true
  | _, _ => false
  end.

Record Result := mkResult {
  pageId : string;
  pageTitle : string;
  status : Status;
  message : string;
  timestamp : string;
  fileId : option string
}.

(** An entry of the [processedPages] object of the differential export. *)
Record PageInfo := mkPageInfo {
  lastModified : JsVal;
  docId : option string;
  title : string
}.

(** ** Raising computations *)

Inductive Exc (A : Type) :=
| Ok (a : A)
| Raise (msg : string).
Arguments Ok {A} a.
Arguments Raise {A} msg.

(** ** The script-property store *)

Inductive JsonText (A : Type) :=
| Unparseable (raw : string)
| Encoded (a : A).
Arguments Unparseable {A} raw.
Arguments Encoded {A} a.

Record Props := mkProps {
  NOTION_API_KEY : option string;
  BATCH_IN_PROGRESS : option string;
  CURRENT_BATCH_INDEX : option nat;
  TOTAL_PAGES : option nat;
  PROCESSED_PAGES : option nat;
  BATCH_PAGE_IDS : option (JsonText (list string));
  BATCH_STARTED_AT : option string;
  BATCH_RESULTS : option (JsonText (list Result));
  LAST_EXPORT_TIMESTAMP : option string;
  PROCESSED_PAGES_INFO : option (JsonText (gmap string PageInfo))
}.

(** [properties.deleteAllProperties()]. *)
Definition deleteAllProperties : Props :=
  mkProps None None None None None None None None None None.

Definition set_BATCH_IN_PROGRESS (v : option string) (p : Props) : Props :=
  mkProps (NOTION_API_KEY p) v (CURRENT_BATCH_INDEX p) (TOTAL_PAGES p)
    (PROCESSED_PAGES p) (BATCH_PAGE_IDS p) (BATCH_STARTED_AT p)
    (BATCH_RESULTS p) (LAST_EXPORT_TIMESTAMP p) (PROCESSED_PAGES_INFO p).

Definition set_CURRENT_BATCH_INDEX (v : option nat) (p : Props) : Props :=
  mkProps (NOTION_API_KEY p) (BATCH_IN_PROGRESS p) v (TOTAL_PAGES p)
    (PROCESSED_PAGES p) (BATCH_PAGE_IDS p) (BATCH_STARTED_AT p)
    (BATCH_RESULTS p) (LAST_EXPORT_TIMESTAMP p) (PROCESSED_PAGES_INFO p).

Definition set_TOTAL_PAGES (v : option nat) (p : Props) : Props :=
  mkProps (NOTION_API_KEY p) (BATCH_IN_PROGRESS p) (CURRENT_BATCH_INDEX p) v
    (PROCESSED_PAGES p) (BATCH_PAGE_IDS p) (BATCH_STARTED_AT p)
    (BATCH_RESULTS p) (LAST_EXPORT_TIMESTAMP p) (PROCESSED_PAGES_INFO p).

Definition set_PROCESSED_PAGES (v : option nat) (p : Props) : Props :=
  mkProps (NOTION_API_KEY p) (BATCH_IN_PROGRESS p) (CURRENT_BATCH_INDEX p)
    (TOTAL_PAGES p) v (BATCH_PAGE_IDS p) (BATCH_STARTED_AT p)
    (BATCH_RESULTS p) (LAST_EXPORT_TIMESTAMP p) (PROCESSED_PAGES_INFO p).

Definition set_BATCH_PAGE_IDS (v : option (JsonText (list string))) (p : Props) : Props :=
  mkProps (NOTION_API_KEY p) (BATCH_IN_PROGRESS p) (CURRENT_BATCH_INDEX p)
    (TOTAL_PAGES p) (PROCESSED_PAGES p) v (BATCH_STARTED_AT p)
    (BATCH_RESULTS p) (LAST_EXPORT_TIMESTAMP p) (PROCESSED_PAGES_INFO p).

Definition set_BATCH_STARTED_AT (v : option string) (p : Props) : Props :=
  mkProps (NOTION_API_KEY p) (BATCH_IN_PROGRESS p) (CURRENT_BATCH_INDEX p)
    (TOTAL_PAGES p) (PROCESSED_PAGES p) (BATCH_PAGE_IDS p) v
    (BATCH_RESULTS p) (LAST_EXPORT_TIMESTAMP p) (PROCESSED_PAGES_INFO p).

Definition set_BATCH_RESULTS (v : option (JsonText (list Result))) (p : Props) : Props :=
  mkProps (NOTION_API_KEY p) (BATCH_IN_PROGRESS p) (CURRENT_BATCH_INDEX p)
    (TOTAL_PAGES p) (PROCESSED_PAGES p) (BATCH_PAGE_IDS p) (BATCH_STARTED_AT p)
    v (LAST_EXPORT_TIMESTAMP p) (PROCESSED_PAGES_INFO p).

Definition set_LAST_EXPORT_TIMESTAMP (v : option string) (p : Props) : Props :=
  mkProps (NOTION_API_KEY p) (BATCH_IN_PROGRESS p) (CURRENT_BATCH_INDEX p)
    (TOTAL_PAGES p) (PROCESSED_PAGES p) (BATCH_PAGE_IDS p) (BATCH_STARTED_AT p)
    (BATCH_RESULTS p) v (PROCESSED_PAGES_INFO p).

Definition set_PROCESSED_PAGES_INFO (v : option (JsonText (gmap string PageInfo))) (p : Props) : Props :=
  mkProps (NOTION_API_KEY p) (BATCH_IN_PROGRESS p) (CURRENT_BATCH_INDEX p)
    (TOTAL_PAGES p) (PROCESSED_PAGES p) (BATCH_PAGE_IDS p) (BATCH_STARTED_AT p)
    (BATCH_RESULTS p) (LAST_EXPORT_TIMESTAMP p) v.

(** The seven [deleteProperty] calls on the [BATCH_PROPS] keys. *)
Definition deleteBatchProps (p : Props) : Props :=
  set_BATCH_RESULTS None
    (set_BATCH_STARTED_AT None
      (set_BATCH_PAGE_IDS None
        (set_PROCESSED_PAGES None
          (set_TOTAL_PAGES None
            (set_CURRENT_BATCH_INDEX None
              (set_BATCH_IN_PROGRESS None p)))))).

(** ** The environment *)

Inductive SettingsSheet :=
| NoSpreadsheet
| NoSettingsSheet
| SettingsRows (rows : list (string * string)).

Record QueryResponse := mkQueryResponse {
  results : list Page;
  has_more : bool
}.

Record SaveOk := mkSaveOk {
  ok_message : string;
  ok_fileId : string
}.

Record Env := mkEnv {
  spreadsheet : SettingsSheet;
  (* POST databases/<id>/query with page_size 100, parsed *)
  fetch_query : string -> Exc QueryResponse;
  (* GET pages/<id>, parsed *)
  fetch_page : string -> Exc Page;
  (* GET blocks/<id>/children, parsed *)
  fetch_blocks : string -> Exc Blocks;
  (* the document built and saved from blocks, title and existing document *)
  docs_write : Blocks -> string -> option string -> Exc SaveOk
}.

Inductive Event :=
| Alert (title : string)
| Recorded (rows : list Result)
| Summary (rows : list Result) (startedAt : option string).

Record World := mkWorld {
  props : Props;
  triggers : nat;        (* project triggers whose handler is processBatchExport *)
  log : list Event
}.

Definition with_props (f : Props -> Props) (w : World) : World :=
  mkWorld (f (props w)) (triggers w) (log w).

Definition emit (e : Event) (w : World) : World :=
  mkWorld (props w) (triggers w) (log w ++ [e]).

(** [showAlert(title, message)]. *)
Definition showAlert (title : string) (w : World) : World := emit (Alert title) w.

(** ** setting.js *)

Definition nonempty (s : string) : bool := negb (String.eqb s "").

(** The rows loop of [loadSettings]: a later matching row overrides an
    earlier one; the two globals start empty. *)
Definition readSettingRow (acc : string * string) (row : string * string) : string * string :=
  let '(DATABASE_ID, DRIVE_FOLDER_ID) := acc in
  let '(key, value) := row in
  if String.eqb key "NotionデータベースID" && nonempty value
     && negb (String.eqb value "ここにデータベースIDを入力")
  then (value, DRIVE_FOLDER_ID)
  else if String.eqb key "Google DriveフォルダID" && nonempty value
          && negb (String.eqb value "ここにフォルダIDを入力")
  then (DATABASE_ID, value)
  else (DATABASE_ID, DRIVE_FOLDER_ID).

(** [loadSettings()]: [inr (DATABASE_ID, DRIVE_FOLDER_ID)] when it returns
    true, [inl title] with the title of the alert it shows when it returns
    false. *)
Definition loadSettings (env : Env) : string + (string * string) :=
  match spreadsheet env with
  | NoSpreadsheet => inl "エラー"
  | NoSettingsSheet => inl "設定シートを作成しました"
  | SettingsRows rows =>
      let '(DATABASE_ID, DRIVE_FOLDER_ID) := fold_left readSettingRow rows ("", "") in
      if negb (nonempty DATABASE_ID) || negb (nonempty DRIVE_FOLDER_ID)
      then inl "設定が不足しています"
      else inr (DATABASE_ID, DRIVE_FOLDER_ID)
  end.

(** ** notionAPI.js *)

(** A single query is sent and only [results] of the answer is read. *)
Definition getNotionDatabasePages (env : Env) (databaseId : string) : list Page :=
  match fetch_query env databaseId with
  | Ok responseData => results responseData
  | Raise _ => []
  end.

Definition getNotionPageById (env : Env) (pageId : string) : option Page :=
  match fetch_page env pageId with
  | Ok responseData => Some responseData
  | Raise _ => None
  end.

Definition getPageBlocks (env : Env) (pageId : string) : Blocks :=
  match fetch_blocks env pageId with
  | Ok blocks => blocks
  | Raise _ => []
  end.

Fixpoint remove_hyphens (s : string) : string :=
  match s with
  | EmptyString => EmptyString
  | String c rest =>
      if Ascii.eqb c "-"%char then remove_hyphens rest
      else String c (remove_hyphens rest)
  end.

Definition fallbackTitle (page : Page) : string :=
  "Page_" +:+ substring 0 8 (remove_hyphens (page_id page)).

Fixpoint findTitle (ps : list (string * NotionProperty)) : option string :=
  match ps with
  | [] => None
  | (_, prop) :: rest =>
      match prop_title prop with
      | _ :: _ =>
          if String.eqb (prop_type prop) "title"
          then Some (String.concat "" (prop_title prop))
          else findTitle rest
      | [] => findTitle rest
      end
  end.

Definition getPageTitle (page : Page) : string :=
  default (fallbackTitle page) (findTitle (properties page)).

(** ** docsConvertor.js, entry point *)

Inductive SaveResult :=
| Saved (msg : string) (file : string)
| NotSaved (msg : string).

(** The whole body runs inside one [try]; the handler answers
    [{success: false, message}]. *)
Definition convertBlocksToGoogleDocs (env : Env) (blocks : Blocks)
    (pageTitle : string) (existingDocId : option string) : SaveResult :=
  match docs_write env blocks pageTitle existingDocId with
  | Ok r => Saved (ok_message r) (ok_fileId r)
  | Raise e => NotSaved ("変換中にエラーが発生しました: " +:+ e)
  end.

(** ** differentialExporter.js *)

(** The [isNewOrUpdated] test of the scan loop. *)
Definition isNewOrUpdated (processedPages : gmap string PageInfo) (page : Page) : bool :=
  match processedPages !! page_id page with
  | None => true
  | Some info =>
      truthy (last_edited_time page)
      && js_lt (lastModified info) (last_edited_time page)
  end.

Definition skippedResult (now : string) (processedPages : gmap string PageInfo)
    (page : Page) : Result :=
  mkResult (page_id page) (getPageTitle page) Skipped
    "前回のエクスポート以降更新がないためスキップされました" now
    (processedPages !! page_id page ≫= docId).

(** The scan loop: [(pagesToProcess, skippedPages)], both in listing order. *)
Fixpoint detectChanges (now : string) (processedPages : gmap string PageInfo)
    (pages : list Page) : list Page * list Result :=
  match pages with
  | [] => ([], [])
  | page :: rest =>
      let '(pagesToProcess, skippedPages) := detectChanges now processedPages rest in
      if isNewOrUpdated processedPages page
      then (page :: pagesToProcess, skippedPages)
      else (pagesToProcess, skippedResult now processedPages page :: skippedPages)
  end.

Record DiffState := mkDiffState {
  ds_world : World;                             (* store, triggers, log *)
  ds_processedPages : gmap string PageInfo;     (* the in-memory object *)
  ds_results : list Result
}.

(** One turn of the processing loop. *)
Definition processDiffPage (env : Env) (now : string) (st : DiffState) (page : Page) : DiffState :=
  let pageId := page_id page in
  let pageTitle := getPageTitle page in
  let lastEditedTime := last_edited_time page in
  let blocks := getPageBlocks env pageId in
  let existingDocId := ds_processedPages st !! pageId ≫= docId in
  match convertBlocksToGoogleDocs env blocks pageTitle existingDocId with
  | Saved msg file =>
      mkDiffState (ds_world st)
        (<[pageId := mkPageInfo (js_or lastEditedTime (JStr now)) (Some file) pageTitle]>
           (ds_processedPages st))
        (ds_results st ++ [mkResult pageId pageTitle Success msg now (Some file)])
  | NotSaved msg =>
      mkDiffState (ds_world st) (ds_processedPages st)
        (ds_results st ++ [mkResult pageId pageTitle Fail msg now None])
  end.

Definition truthy_text (o : option string) : bool :=
  match o with
  | Some s => nonempty s
  | None => false
  end.

(** Reading [PROCESSED_PAGES_INFO]: a missing, empty or unparseable text
    gives the empty object. *)
Definition readProcessedPages (p : Props) : gmap string PageInfo :=
  match PROCESSED_PAGES_INFO p with
  | Some (Encoded m) => m
  | Some (Unparseable _) | None => ∅
  end.

(** The state of the run when the processing loop has handled the pages of
    [done], a prefix of [pagesToProcess]. *)
Definition diffLoop (env : Env) (now : string) (w : World)
    (processedPages : gmap string PageInfo) (done : list Page) : DiffState :=
  fold_left (processDiffPage env now) done (mkDiffState w processedPages []).

(** [exportDifferentialNotionPages()] from the scan loop on, for a non-empty
    listing [pages]: the world it leaves and the [results] it returns.  The
    two alerts are shown when a user interface is attached; nothing below
    depends on them. *)
Definition exportListedPages (env : Env) (now : string) (w : World)
    (pages : list Page) : World * list Result :=
  let processedPages := readProcessedPages (props w) in
  let currentTimestamp := now in
  let scan := detectChanges now processedPages pages in
  let pagesToProcess := scan.1 in
  let skippedPages := scan.2 in
  let w1 := showAlert "差分エクスポートを開始します" w in
  let st := diffLoop env now w1 processedPages pagesToProcess in
  let results := ds_results st ++ skippedPages in
  let w2 :=
    with_props
      (fun p => set_LAST_EXPORT_TIMESTAMP (Some currentTimestamp)
                  (set_PROCESSED_PAGES_INFO
                     (Some (Encoded (ds_processedPages st))) p))
      (ds_world st) in
  let w3 := emit (Recorded results) w2 in
  (showAlert "差分エクスポート完了" w3, results).

(** [exportDifferentialNotionPages()]: the world it leaves and the value it
    returns ([None] for the early returns). *)
Definition exportDifferentialNotionPages (env : Env) (now : string) (w : World)
    : World * option (list Result) :=
  match loadSettings env with
  | inl notice => (showAlert notice w, None)
  | inr (DATABASE_ID, _) =>
      if negb (truthy_text (NOTION_API_KEY (props w)))
      then (showAlert "APIキーが設定されていません" w, None)
      else
        match getNotionDatabasePages env DATABASE_ID with
        | [] => (showAlert "データが見つかりません" w, None)
        | pages =>
            let '(w', results) := exportListedPages env now w pages in
            (w', Some results)
        end
  end.

(** [resetDifferentialExportData()]. *)
Definition resetDifferentialExportData (w : World) : World :=
  showAlert "差分エクスポート情報をリセットしました"
    (with_props (fun p => set_PROCESSED_PAGES_INFO None (set_LAST_EXPORT_TIMESTAMP None p)) w).

(** ** batchProcessor.js *)

(** How an invocation ends: it returns, or an exception leaves it; either way
    the writes made so far stay. *)
Inductive Outcome :=
| Returned (w : World)
| Uncaught (err : string) (w : World).

Definition final_world (o : Outcome) : World :=
  match o with
  | Returned w | Uncaught _ w => w
  end.

(** The local variables of [processBatchExport]. *)
Record Locals := mkLocals {
  currentBatchIndex : nat;
  totalPages : nat;
  processedPages : nat;
  batchStartedAt : option string;
  batchResults : list Result
}.

(** [deleteTriggers()]. *)
Definition deleteTriggers (w : World) : World :=
  mkWorld (props w) 0 (log w).

(** [createTriggerForNextBatch()]. *)
Definition createTriggerForNextBatch (w : World) : World :=
  let w' := deleteTriggers w in
  mkWorld (props w') (S (triggers w')) (log w').

(** [completeAndSummary(results, startedAt)]. *)
Definition completeAndSummary (rs : list Result) (startedAt : option string) (w : World) : World :=
  showAlert "バッチエクスポート完了" (emit (Summary rs startedAt) w).

(** [recordResultsToSpreadsheet(results)]. *)
Definition recordResultsToSpreadsheet (rs : list Result) (w : World) : World :=
  emit (Recorded rs) w.

(** [properties.getProperty(BATCH_IN_PROGRESS) === 'true']. *)
Definition inProgress (p : Props) : bool :=
  match BATCH_IN_PROGRESS p with
  | Some flag => String.eqb flag "true"
  | None => false
  end.

(** [batchResults ? JSON.parse(batchResults) : []]. *)
Definition readBatchResults (p : Props) : Exc (list Result) :=
  match BATCH_RESULTS p with
  | None => Ok []
  | Some (Unparseable raw) =>
      if nonempty raw then Raise "SyntaxError" else Ok []
  | Some (Encoded rs) => Ok rs
  end.

(** [JSON.parse(properties.getProperty(BATCH_PAGE_IDS))] as used by the
    [slice] that follows: a missing property parses to [null]. *)
Definition readPageIds (p : Props) : Exc (list string) :=
  match BATCH_PAGE_IDS p with
  | None => Raise "TypeError"
  | Some (Unparseable _) => Raise "SyntaxError"
  | Some (Encoded ids) => Ok ids
  end.

(** [a.slice(startIndex, endIndex)]. *)
Definition slice {A} (startIndex endIndex : nat) (a : list A) : list A :=
  take (endIndex - startIndex) (drop startIndex a).

(** The result pushed for one page id by the body of the page loop. *)
Definition processPage (env : Env) (now : string) (pageId : string) : Result :=
  match getNotionPageById env pageId with
  | None =>
      mkResult pageId ("Unknown (ID: " +:+ pageId +:+ ")") Fail
        "ページ情報を取得できませんでした" now None
  | Some page =>
      let pageTitle := getPageTitle page in
      let blocks := getPageBlocks env pageId in
      match convertBlocksToGoogleDocs env blocks pageTitle None with
      | Saved msg file => mkResult pageId pageTitle Success msg now (Some file)
      | NotSaved msg => mkResult pageId pageTitle Fail msg now None
      end
  end.

Record LoopState := mkLoopState {
  ls_world : World;
  ls_processedPages : nat;
  ls_results : list Result
}.

(** One turn of the page loop: push the result, count the page, write the
    count. *)
Definition pageLoopBody (env : Env) (now : string) (st : LoopState) (pageId : string) : LoopState :=
  let result := processPage env now pageId in
  let processed := S (ls_processedPages st) in
  mkLoopState (with_props (set_PROCESSED_PAGES (Some processed)) (ls_world st))
    processed (ls_results st ++ [result]).

Inductive Init :=
| Abort (w : World)
| Proceed (w : World) (l : Locals).

(** The seven [setProperty] calls of the first-run branch, in their order. *)
Definition initialisedProps (now : string) (pageIds : list string) (p : Props) : Props :=
  set_BATCH_RESULTS (Some (Encoded []))
    (set_BATCH_STARTED_AT (Some now)
      (set_BATCH_PAGE_IDS (Some (Encoded pageIds))
        (set_PROCESSED_PAGES (Some 0)
          (set_TOTAL_PAGES (Some (length pageIds))
            (set_CURRENT_BATCH_INDEX (Some 0)
              (set_BATCH_IN_PROGRESS (Some "true") p)))))).

Section Batch.

(** [BATCH_SIZE], kept general here. *)
Variable batchSize : nat.
Variable env : Env.

(** The first-run branch of [processBatchExport]: [l] holds the locals as
    read from the store before the branch.  The branch assigns [totalPages],
    [currentBatchIndex], [batchStartedAt] and [batchResults]; [processedPages]
    keeps the value read from the store. *)
Definition initialiseBatch (DATABASE_ID : string) (now : string) (w : World) (l : Locals) : Init :=
  match getNotionDatabasePages env DATABASE_ID with
  | [] => Abort (with_props (fun _ => deleteAllProperties) (showAlert "データが見つかりません" w))
  | pages =>
      let pageIds := map page_id pages in
      let total := length pageIds in
      let w1 := with_props (initialisedProps now pageIds) w in
      let w2 := showAlert "バッチ処理を開始します" w1 in
      Proceed w2 (mkLocals 0 total (processedPages l) (Some now) [])
  end.

(** From the read of the page ids to the end of [processBatchExport]. *)
Definition processChunk (now : string) (w : World) (l : Locals) : Outcome :=
  match readPageIds (props w) with
  | Raise e => Uncaught e w
  | Ok pageIds =>
      let startIndex := currentBatchIndex l * batchSize in
      let endIndex := Nat.min (startIndex + batchSize) (totalPages l) in
      let batchPageIds := slice startIndex endIndex pageIds in
      let st :=
        fold_left (pageLoopBody env now) batchPageIds
          (mkLoopState w (processedPages l) []) in
      let allResults := batchResults l ++ ls_results st in
      let w1 :=
        with_props
          (fun p =>
             set_BATCH_RESULTS (Some (Encoded allResults))
               (set_PROCESSED_PAGES (Some (ls_processedPages st))
                 (set_CURRENT_BATCH_INDEX (Some (S (currentBatchIndex l))) p)))
          (ls_world st) in
      let w2 := recordResultsToSpreadsheet (ls_results st) w1 in
      if Nat.leb (totalPages l) endIndex
      then
        Returned
          (deleteTriggers
             (with_props deleteBatchProps
                (completeAndSummary allResults (batchStartedAt l) w2)))
      else Returned (createTriggerForNextBatch w2)
  end.

(** [processBatchExport()]. *)
Definition processBatchExport (now : string) (w : World) : Outcome :=
  match loadSettings env with
  | inl notice =>
      Returned
        (showAlert "設定エラー"
           (with_props (fun _ => deleteAllProperties) (showAlert notice w)))
  | inr (DATABASE_ID, _) =>
      let p := props w in
      let batchInProgress := inProgress p in
      match readBatchResults p with
      | Raise e => Uncaught e w
      | Ok stored =>
          let l :=
            mkLocals (default 0 (CURRENT_BATCH_INDEX p)) (default 0 (TOTAL_PAGES p))
              (default 0 (PROCESSED_PAGES p)) (BATCH_STARTED_AT p) stored in
          if batchInProgress
          then processChunk now w l
          else
            match initialiseBatch DATABASE_ID now w l with
            | Abort w' => Returned w'
            | Proceed w' l' => processChunk now w' l'
            end
      end
  end.

(** [startBatchExport()]. *)
Definition startBatchExport (now : string) (w : World) : Outcome :=
  if negb (truthy_text (NOTION_API_KEY (props w)))
  then Returned (showAlert "APIキーが設定されていません" w)
  else
    match loadSettings env with
    | inl notice => Returned (showAlert notice w)
    | inr _ =>
        processBatchExport now
          (deleteTriggers (with_props (set_BATCH_IN_PROGRESS None) w))
    end.

(** [cancelBatchExport()]. *)
Definition cancelBatchExport (w : World) : World :=
  showAlert "バッチ処理を停止しました" (with_props deleteBatchProps (deleteTriggers w)).

(** The continuation: the host calls [processBatchExport] once for each
    clock reading of [clock], as long as a trigger is set and the previous
    call returned. *)
Fixpoint continuations (clock : list string) (w : World) : Outcome :=
  match clock with
  | [] => Returned w
  | now :: later =>
      match triggers w with
      | O => Returned w
      | S _ =>
          match processBatchExport now w with
          | Returned w' => continuations later w'
          | Uncaught e w' => Uncaught e w'
          end
      end
  end.

End Batch.

(** [BATCH_SIZE]. *)
Definition BATCH_SIZE : nat := 5.

(** * Notions used in the statements *)

(** ** Change detection and the differential loop *)

(** What the scan loop decides for one listed page. *)
Definition newOrUpdated (pp : gmap string PageInfo) (page : Page) : Prop :=
  pp !! page_id page = None ∨
  ∃ info, pp !! page_id page = Some info
          ∧ truthy (last_edited_time page) = true
          ∧ js_lt (lastModified info) (last_edited_time page) = true.

(** What holds of the loop state after any number of turns. *)
Record DiffLoopInv (w : World) (pp : gmap string PageInfo) (st : DiffState) : Prop := {
  inv_world : ds_world st = w;
  inv_changed : ∀ id, ds_processedPages st !! id ≠ pp !! id →
      ∃ r, In r (ds_results st) ∧ pageId r = id ∧ status r = Success;
  inv_written : ∀ r, In r (ds_results st) → status r = Success →
      is_Some (ds_processedPages st !! pageId r);
  inv_status : ∀ r, In r (ds_results st) → status r = Success ∨ status r = Fail
}.

Definition count (s : Status) (rs : list Result) : nat :=
  length (List.filter (fun r => Status_eqb (status r) s) rs).

(** ** Runs of the batch export *)

(** No RunState is stored. *)
Definition Idle (p : Props) : Prop := deleteBatchProps p = p.

(** The ids handled by the invocation whose batch index is [k]. *)
Definition chunk (batchSize k total : nat) (ids : list string) : list string :=
  slice (k * batchSize) (Nat.min (k * batchSize + batchSize) total) ids.

(** The world a chunk leaves before the completion test. *)
Definition afterChunk (w : World) (l : Locals) (new : list Result) : World :=
  mkWorld
    (set_BATCH_RESULTS (Some (Encoded (batchResults l ++ new)))
       (set_PROCESSED_PAGES (Some (processedPages l + length new))
          (set_CURRENT_BATCH_INDEX (Some (S (currentBatchIndex l))) (props w))))
    (triggers w) (log w ++ [Recorded new]).

(** A result without its wall-clock reading. *)
Definition untimed (r : Result) : Result :=
  mkResult (pageId r) (pageTitle r) (status r) (message r) "" (fileId r).

(** What processing a page id yields, whatever the time of day. *)
Definition outcome (env : Env) (pageId : string) : Result :=
  untimed (processPage env "" pageId).

(** The rows of the last completion summary, and of the last hand-over to
    the result sheet, in an event log. *)
Definition lastSummary (l : list Event) : option (list Result) :=
  fold_left (fun acc e => match e with Summary rows _ => Some rows | _ => acc end) l None.

Definition lastRecorded (l : list Event) : option (list Result) :=
  fold_left (fun acc e => match e with Recorded rows => Some rows | _ => acc end) l None.

(** A run: the first invocation is [startBatchExport] at the first clock
    reading; the host then fires the continuation once for each further
    reading. *)
Definition exportRun (batchSize : nat) (env : Env) (clock : list string) (w : World) : Outcome :=
  match clock with
  | [] => Returned w
  | now :: later =>
      match startBatchExport batchSize env now w with
      | Returned w' => continuations batchSize env later w'
      | Uncaught e w' => Uncaught e w'
      end
  end.

(** The persisted RunState of a run over [ids] whose next chunk is [k].
    The results accumulated so far are described through a view of the
    results: [ideal id] is the view of what page [id] yields. *)
Record InRun (batchSize : nat) (view : Result → Result) (ideal : string → Result)
    (ids : list string) (k : nat) (p : Props) : Prop := {
  run_flag : BATCH_IN_PROGRESS p = Some "true";
  run_index : CURRENT_BATCH_INDEX p = Some k;
  run_total : TOTAL_PAGES p = Some (length ids);
  run_ids : BATCH_PAGE_IDS p = Some (Encoded ids);
  run_results : ∃ R, BATCH_RESULTS p = Some (Encoded R)
                     ∧ map view R = map ideal (take (k * batchSize) ids)
}.

(** ** The queue of the specification *)




(** * Sample environments and stores *)

(** A filled-in settings sheet. *)
Definition okSheet : SettingsSheet :=
  SettingsRows [("NotionデータベースID", "db-1"); ("Google DriveフォルダID", "folder-1")].

(** A source that lists [pages], answers the request for each of them and
    for its content, with [write] as the conversion service. *)
Definition listingEnv (pages : list Page) (write : Blocks → string → option string → Exc SaveOk) : Env :=
  mkEnv okSheet
    (fun _ => Ok (mkQueryResponse pages false))
    (fun pageId =>
       match List.find (fun page => String.eqb (page_id page) pageId) pages with
       | Some page => Ok page
       | None => Raise "404"
       end)
    (fun _ => Ok ["block"])
    write.

(** Conversion services: one that always succeeds, one that refuses the
    page titled B, one that refuses the fifth page. *)
Definition alwaysSaves : Blocks → string → option string → Exc SaveOk :=
  fun _ pageTitle _ => Ok (mkSaveOk "saved" ("doc-" +:+ pageTitle)).

Definition refusesB : Blocks → string → option string → Exc SaveOk :=
  fun _ pageTitle _ =>
    if String.eqb pageTitle "B" then Raise "quota exceeded"
    else Ok (mkSaveOk "saved" ("doc-" +:+ pageTitle)).

Definition refusesFifth : Blocks → string → option string → Exc SaveOk :=
  fun _ pageTitle _ =>
    if String.eqb pageTitle "p05" then Raise "document too large"
    else Ok (mkSaveOk "saved" ("doc-" +:+ pageTitle)).

(** The source answers every request except the one for the content of the
    page [id]. *)
Definition contentUnavailableFor (id : string) (pages : list Page) : Env :=
  mkEnv okSheet
    (fun _ => Ok (mkQueryResponse pages false))
    (fetch_page (listingEnv pages alwaysSaves))
    (fun pageId => if String.eqb pageId id then Raise "HTTP 502" else Ok ["block"])
    alwaysSaves.

(** The source answers every request except the one for the page [id]. *)
Definition pageUnavailableFor (id : string) (pages : list Page) : Env :=
  mkEnv okSheet
    (fun _ => Ok (mkQueryResponse pages false))
    (fun pageId =>
       if String.eqb pageId id then Raise "HTTP 502"
       else fetch_page (listingEnv pages alwaysSaves) pageId)
    (fun _ => Ok ["block"])
    alwaysSaves.

(** The listing request fails. *)
Definition sourceDown : Env :=
  mkEnv okSheet (fun _ => Raise "HTTP 503") (fun _ => Raise "HTTP 503")
    (fun _ => Raise "HTTP 503") alwaysSaves.

(** Pages whose title is their id. *)
Definition titled (id : string) (t : JsVal) : Page :=
  mkPage id t [("Name", mkProperty "title" [id])].

Definition pagesNamed (names : list string) : list Page :=
  map (fun name => titled name (JNum 1)) names.

Definition sixNames : list string := ["p01"; "p02"; "p03"; "p04"; "p05"; "p06"].

Definition tenNames : list string :=
  ["p01"; "p02"; "p03"; "p04"; "p05"; "p06"; "p07"; "p08"; "p09"; "p10"].

Definition twelveNames : list string :=
  ["p01"; "p02"; "p03"; "p04"; "p05"; "p06"; "p07"; "p08"; "p09"; "p10"; "p11"; "p12"].

(** The settings sheet does not exist. *)
Definition notConfigured : Env :=
  mkEnv NoSettingsSheet (fun _ => Ok (mkQueryResponse (pagesNamed sixNames) false))
    (fun _ => Raise "unused") (fun _ => Ok []) alwaysSaves.

(** The state and the listing of the diffing example: ItemState
    [{A: t=100}], snapshot [[A: t=100, B: t=None, C: t=150]]. *)
Definition exampleState : gmap string PageInfo :=
  {[ "A" := mkPageInfo (JNum 100) (Some "doc-A") "a" ]}.
Definition examplePageA : Page := mkPage "A" (JNum 100) [].
Definition examplePageB : Page := mkPage "B" JUndefined [].
Definition examplePageC : Page := mkPage "C" (JNum 150) [].
Definition exampleListing : list Page := [examplePageA; examplePageB; examplePageC].

(** A stored entry whose time stamp is missing, and one whose time stamp is
    not a date at all, against a page edited later. *)
Definition staleState : gmap string PageInfo :=
  {[ "A" := mkPageInfo JUndefined (Some "doc-A") "a";
     "B" := mkPageInfo (JStr "not a date") (Some "doc-B") "b" ]}.
Definition editedPageA : Page := mkPage "A" (JStr "2024-05-01T09:00:00.000Z") [].
Definition editedPageB : Page := mkPage "B" (JStr "2024-05-01T09:00:00.000Z") [].

(** A store that holds the API key and nothing else, and the world around
    it: no trigger, empty log. *)
Definition keyOnly : Props :=
  mkProps (Some "secret") None None None None None None None None None.

Definition freshWorld : World := mkWorld keyOnly 0 [].

(** The same with the ItemState of the diffing example. *)
Definition worldWithExampleState : World :=
  mkWorld (set_PROCESSED_PAGES_INFO (Some (Encoded exampleState)) keyOnly) 0 [].

(** A store that holds the API key and the baseline of an earlier
    differential export, and no RunState. *)
Definition worldWithBaseline : World :=
  mkWorld
    (set_LAST_EXPORT_TIMESTAMP (Some "2024-05-01T09:00:00.000Z")
       (set_PROCESSED_PAGES_INFO (Some (Encoded exampleState)) keyOnly))
    0 [].


(** Stored texts cut short by a partial write. *)
Definition corruptResults (w : World) : World :=
  with_props (set_BATCH_RESULTS (Some (Unparseable "[{pageId:p01,sta"))) w.

Definition corruptQueue (w : World) : World :=
  with_props (set_BATCH_PAGE_IDS (Some (Unparseable "[p01,p02,"))) w.

Definition corruptItemState (w : World) : World :=
  with_props (set_PROCESSED_PAGES_INFO (Some (Unparseable "{A:{lastMod"))) w.

(** * Further code *)

(** ** uiUtiles.js: the result sheet *)

(** A data row of the sheet エクスポート結果, below its header row.  The
    last column holds the link the cell opens. *)
Record SheetRow := mkSheetRow {
  row_time : string;
  row_pageId : string;
  row_pageTitle : string;
  row_status : Status;
  row_message : string;
  row_fileId : string;
  row_fileLink : string
}.

(** The row [recordResultsToSpreadsheet] prepares for one result. *)
Definition sheetRow (now : string) (result : Result) : SheetRow :=
  let fileLink :=
    if truthy_text (fileId result)
    then "https://docs.google.com/document/d/" +:+ default "" (fileId result) +:+ "/edit"
    else "" in
  mkSheetRow now (pageId result) (pageTitle result) (status result) (message result)
    (if truthy_text (fileId result) then default "" (fileId result) else "")
    fileLink.

(** [MAX_ROWS]. *)
Definition MAX_ROWS : Z := 1000.

(** [sheet.deleteRows(2, howMany)] on the data rows, for [howMany > 0].
    When the call reaches below the last row with content, what the sheet
    service does depends on the size of the grid; that case is [None]. *)
Definition deleteRows (howMany : Z) (data : list SheetRow) : option (list SheetRow) :=
  if (howMany <=? Z.of_nat (length data))%Z
  then Some (drop (Z.to_nat howMany) data)
  else None.

(** [recordResultsToSpreadsheet(results)] on the data rows of the sheet:
    the header row is rewritten, so [getLastRow()] is one more than the
    number of data rows. *)
Definition recordResultsToSheet (now : string) (results : list Result)
    (data : list SheetRow) : option (list SheetRow) :=
  let rows := map (sheetRow now) results in
  let currentRows := (1 + Z.of_nat (length data))%Z in
  let rowsLength := Z.of_nat (length rows) in
  kept ←
    (if ((MAX_ROWS <? currentRows + rowsLength) && (1 <? currentRows))%Z
     then
       let rowsToKeep := Z.min (MAX_ROWS - rowsLength) (currentRows - 1) in
       if (0 <? currentRows - rowsToKeep)%Z
       then deleteRows (currentRows - rowsToKeep) data
       else Some data
     else Some data);
  Some (kept ++ rows).

(** The sheet after a sequence of recordings. *)
Fixpoint recordAll (now : string) (batches : list (list Result))
    (data : list SheetRow) : option (list SheetRow) :=
  match batches with
  | [] => Some data
  | results :: later =>
      data' ← recordResultsToSheet now results data;
      recordAll now later data'
  end.

(** ** The one-shot export *)

(** The result pushed for one listed page by the loop of
    [exportNotionToGoogleDrive]. *)
Definition exportPage (env : Env) (now : string) (page : Page) : Result :=
  let pageTitle := getPageTitle page in
  let blocks := getPageBlocks env (page_id page) in
  match convertBlocksToGoogleDocs env blocks pageTitle None with
  | Saved msg file => mkResult (page_id page) pageTitle Success msg now (Some file)
  | NotSaved msg => mkResult (page_id page) pageTitle Fail msg now None
  end.

(** [exportNotionToGoogleDrive()]: the world it leaves and the value it
    returns ([None] for the early returns). *)
Definition exportNotionToGoogleDrive (env : Env) (now : string) (w : World)
    : World * option (list Result) :=
  match loadSettings env with
  | inl notice => (showAlert notice w, None)
  | inr (DATABASE_ID, _) =>
      if negb (truthy_text (NOTION_API_KEY (props w)))
      then (showAlert "APIキーが設定されていません" w, None)
      else
        match getNotionDatabasePages env DATABASE_ID with
        | [] => (showAlert "データが見つかりません" w, None)
        | pages =>
            let w1 := showAlert "処理を開始します" w in
            let results := map (exportPage env now) pages in
            let w2 := recordResultsToSpreadsheet results w1 in
            (showAlert "エクスポート完了" w2, Some results)
        end
  end.

(** ** notionAPI.js: storing the key *)

(** [setApiKey()]: [response] is the text entered when the prompt is closed
    with OK, [None] when it is cancelled. *)
Definition setApiKey (response : option string) (w : World) : World :=
  match response with
  | Some apiKey =>
      emit (Alert "API Keyが保存されました。")
        (with_props
           (fun p =>
              mkProps (Some apiKey) (BATCH_IN_PROGRESS p) (CURRENT_BATCH_INDEX p)
                (TOTAL_PAGES p) (PROCESSED_PAGES p) (BATCH_PAGE_IDS p)
                (BATCH_STARTED_AT p) (BATCH_RESULTS p) (LAST_EXPORT_TIMESTAMP p)
                (PROCESSED_PAGES_INFO p))
           w)
  | None => w
  end.

(** ** Progress of a run *)

(** A result of the page loop: Success or Fail. *)
Definition settled (r : Result) : Prop := status r = Success ∨ status r = Fail.

(** The persisted RunState with its page counter, when [k] full chunks have
    been handled. *)
Definition Counted (batchSize : nat) (ids : list string) (k : nat) (p : Props) : Prop :=
  BATCH_IN_PROGRESS p = Some "true"
  ∧ CURRENT_BATCH_INDEX p = Some k
  ∧ TOTAL_PAGES p = Some (length ids)
  ∧ BATCH_PAGE_IDS p = Some (Encoded ids)
  ∧ PROCESSED_PAGES p = Some (k * batchSize)
  ∧ ∃ R, BATCH_RESULTS p = Some (Encoded R)
         ∧ map pageId R = take (k * batchSize) ids
         ∧ Forall settled R.

(** The properties other than the seven of a run. *)
Definition otherProps (p : Props) : option string * option string * option (JsonText (gmap string PageInfo)) :=
  (NOTION_API_KEY p, LAST_EXPORT_TIMESTAMP p, PROCESSED_PAGES_INFO p).

(** A trigger is set exactly while a run is in progress. *)
Definition TriggerMatchesRun (w : World) : Prop :=
  (inProgress (props w) = true ∧ triggers w = 1)
  ∨ (Idle (props w) ∧ triggers w = 0).

(** ** The differential export, page by page *)

(** The result [processDiffPage] pushes for [page] when the in-memory object
    is [processedPages]. *)
Definition diffResult (env : Env) (now : string) (processedPages : gmap string PageInfo)
    (page : Page) : Result :=
  let pageTitle := getPageTitle page in
  match convertBlocksToGoogleDocs env (getPageBlocks env (page_id page)) pageTitle
          (processedPages !! page_id page ≫= docId) with
  | Saved msg file => mkResult (page_id page) pageTitle Success msg now (Some file)
  | NotSaved msg => mkResult (page_id page) pageTitle Fail msg now None
  end.

(** ** Rows of the settings sheet *)

(** A row that [loadSettings] accepts as the database id, and one it accepts
    as the folder id. *)
Definition databaseRow (row : string * string) : Prop :=
  row.1 = "NotionデータベースID" ∧ row.2 ≠ "" ∧ row.2 ≠ "ここにデータベースIDを入力".

Definition folderRow (row : string * string) : Prop :=
  row.1 = "Google DriveフォルダID" ∧ row.2 ≠ "" ∧ row.2 ≠ "ここにフォルダIDを入力".

(** A property that [getPageTitle] takes the title from. *)
Definition titleProperty (prop : NotionProperty) : Prop :=
  prop_type prop = "title" ∧ prop_title prop ≠ [].

(** ** imageProcessor.js: type and extension of an image *)

(** [s.split('?')[0]]. *)
Fixpoint beforeQuery (s : string) : string :=
  match s with
  | EmptyString => EmptyString
  | String c rest =>
      if Ascii.eqb c "?" then EmptyString else String c (beforeQuery rest)
  end.

Fixpoint hasDot (s : string) : bool :=
  match s with
  | EmptyString => false
  | String c rest => Ascii.eqb c "." || hasDot rest
  end.

(** The last element of [s.split('.')]. *)
Fixpoint lastPart (s : string) : string :=
  match s with
  | EmptyString => EmptyString
  | String c rest =>
      if hasDot rest then lastPart rest
      else if Ascii.eqb c "." then rest
      else String c rest
  end.

Definition lowerChar (c : ascii) : ascii :=
  let n := nat_of_ascii c in
  if (65 <=? n) && (n <=? 90) then ascii_of_nat (n + 32) else c.

(** [s.toLowerCase()] on the letters A to Z.  The extensions compared below
    are spelled with letters that no other character lowers to. *)
Fixpoint toLowerCase (s : string) : string :=
  match s with
  | EmptyString => EmptyString
  | String c rest => String (lowerChar c) (toLowerCase rest)
  end.

(** The [switch] of [guessMimeTypeFromUrl]; both exits of its default case
    return [image/jpeg]. *)
Definition mimeOfExtension (extension : string) : string :=
  if String.eqb extension "jpg" || String.eqb extension "jpeg" || String.eqb extension "jpe"
  then "image/jpeg"
  else if String.eqb extension "png" then "image/png"
  else if String.eqb extension "gif" then "image/gif"
  else if String.eqb extension "webp" then "image/webp"
  else if String.eqb extension "svg" then "image/svg+xml"
  else if String.eqb extension "bmp" then "image/bmp"
  else if String.eqb extension "tiff" || String.eqb extension "tif" then "image/tiff"
  else if String.eqb extension "ico" then "image/x-icon"
  else if String.eqb extension "heic" then "image/heic"
  else if String.eqb extension "heif" then "image/heif"
  else if String.eqb extension "avif" then "image/avif"
  else "image/jpeg".

(** [guessMimeTypeFromUrl(url)]. *)
Definition guessMimeTypeFromUrl (url : string) : string :=
  let baseUrl := beforeQuery url in
  if negb (hasDot baseUrl) then "image/jpeg"
  else mimeOfExtension (toLowerCase (lastPart baseUrl)).

(** [mimeTypeToExtension(mimeType)]. *)
Definition mimeTypeToExtension (mimeType : string) : string :=
  if String.eqb mimeType "image/jpeg" then "jpg"
  else if String.eqb mimeType "image/png" then "png"
  else if String.eqb mimeType "image/gif" then "gif"
  else if String.eqb mimeType "image/webp" then "webp"
  else if String.eqb mimeType "image/svg+xml" then "svg"
  else if String.eqb mimeType "image/bmp" then "bmp"
  else if String.eqb mimeType "image/tiff" then "tiff"
  else "jpg".

(** Strings without a given character. *)
Fixpoint without (c : ascii) (s : string) : Prop :=
  match s with
  | EmptyString => True
  | String c' rest => c' ≠ c ∧ without c rest
  end.

(** ** docsConvertor.js: file names, rich text, lists *)

(** The characters of the class in the pattern of [safeFileName]: backslash,
    slash, colon, star, question mark, double quote, the two angle brackets
    and the bar. *)
Definition forbiddenInFileName (c : ascii) : bool :=
  existsb (Ascii.eqb c)
    ["\"%char; "/"%char; ":"%char; "*"%char; "?"%char; ascii_of_nat 34;
     "<"%char; ">"%char; "|"%char].

(** [safeFileName]: [pageTitle.replace(.., '_')] with the global pattern of
    that class. *)
Fixpoint safeFileName (pageTitle : string) : string :=
  match pageTitle with
  | EmptyString => EmptyString
  | String c rest =>
      String (if forbiddenInFileName c then "_"%char else c) (safeFileName rest)
  end.

(** The code units of a JavaScript string. *)
Definition CodeUnits := list N.

Record Annotations := mkAnnotations {
  bold : bool;
  italic : bool;
  strikethrough : bool;
  underline : bool;
  code : bool;
  color : option string
}.

Record TextObj := mkTextObj {
  plain_text : option CodeUnits;
  annotations : option Annotations;
  href : option string
}.

Inductive DocAttribute :=
| BOLD
| ITALIC
| STRIKETHROUGH
| UNDERLINE
| FONT_FAMILY (family : string)
| BACKGROUND_COLOR (hex : string)
| FOREGROUND_COLOR (name : string).

(** The calls [appendRichTextToDoc] makes on the paragraph; offsets are
    inclusive at both ends. *)
Inductive TextCall :=
| AppendText (content : CodeUnits)
| SetAttributes (startOffset endOffsetInclusive : nat) (attributes : list DocAttribute)
| SetLinkUrl (startOffset endOffsetInclusive : nat) (url : string).

(** The [attributes] object built from the annotations, key by key in the
    order the code sets them. *)
Definition attributesOf (a : Annotations) : list DocAttribute :=
  (if bold a then [BOLD] else [])
  ++ (if italic a then [ITALIC] else [])
  ++ (if strikethrough a then [STRIKETHROUGH] else [])
  ++ (if underline a then [UNDERLINE] else [])
  ++ (if code a then [FONT_FAMILY "Courier New"; BACKGROUND_COLOR "#f6f8fa"] else [])
  ++ (match color a with
      | Some c => if nonempty c && negb (String.eqb c "default") then [FOREGROUND_COLOR c] else []
      | None => []
      end).

(** [textObj.plain_text || '']. *)
Definition contentOf (textObj : TextObj) : CodeUnits := default [] (plain_text textObj).

(** The body of the [forEach] of [appendRichTextToDoc], at [textOffset]. *)
Definition textCalls (textOffset : nat) (textObj : TextObj) : list TextCall :=
  let content := contentOf textObj in
  let endOffset := textOffset + length content in
  AppendText content
  :: match annotations textObj with
     | Some a =>
         (match attributesOf a, content with
          | _ :: _, _ :: _ => [SetAttributes textOffset (endOffset - 1) (attributesOf a)]
          | _, _ => []
          end)
         ++ (match href textObj, content with
             | Some url, _ :: _ => if nonempty url then [SetLinkUrl textOffset (endOffset - 1) url] else []
             | _, _ => []
             end)
     | None => []
     end.

(** [appendRichTextToDoc(paragraph, richTextArray)] from [textOffset]: the
    function itself starts at 0. *)
Fixpoint richTextCalls (textOffset : nat) (richTextArray : list TextObj) : list TextCall :=
  match richTextArray with
  | [] => []
  | textObj :: rest =>
      textCalls textOffset textObj
      ++ richTextCalls (textOffset + length (contentOf textObj)) rest
  end.

Definition appendRichTextToDoc (richTextArray : list TextObj) : list TextCall :=
  richTextCalls 0 richTextArray.

(** The text appended by a list of calls. *)
Definition appendedText (calls : list TextCall) : CodeUnits :=
  concat (map (fun c => match c with AppendText content => content | _ => [] end) calls).

Inductive Glyph := BULLET_GLYPH | NUMBER_GLYPH.

(** A block as the block loop of [convertBlocksToGoogleDocs] sees it: a list
    item of either kind with its [rich_text], if it has one, or a block of
    another type. *)
Inductive DocBlock (RichText Other : Type) :=
| ListItemBlock (kind : Glyph) (rich_text : option RichText)
| OtherBlock (block : Other).
Arguments ListItemBlock {RichText Other} kind rich_text.
Arguments OtherBlock {RichText Other} block.

(** What the loop appends to the body: a list item with its glyph, or
    whatever the [switch] renders for a block of another type. *)
Inductive DocElement (RichText Other : Type) :=
| ListItem (text : RichText) (glyph : Glyph)
| Rendered (block : Other).
Arguments ListItem {RichText Other} text glyph.
Arguments Rendered {RichText Other} block.

(** [appendListItems(body, items, type)]: every item gets the glyph of
    [type], [BULLET] unless [type] is ['NUMBER']. *)
Definition appendListItems {RichText Other} (items : list (RichText * Glyph))
    (type : option Glyph) : list (DocElement RichText Other) :=
  let listType :=
    match type with
    | Some NUMBER_GLYPH => NUMBER_GLYPH
    | _ => BULLET_GLYPH
    end in
  map (fun item => ListItem item.1 listType) items.

Record ListBuffer (RichText Other : Type) := mkListBuffer {
  body : list (DocElement RichText Other);
  currentListItems : list (RichText * Glyph);
  currentListType : option Glyph
}.
Arguments mkListBuffer {RichText Other} body currentListItems currentListType.
Arguments body {RichText Other} l.
Arguments currentListItems {RichText Other} l.
Arguments currentListType {RichText Other} l.

(** One turn of the block loop, when no call on the document raises. *)
Definition blockStep {RichText Other} (st : ListBuffer RichText Other)
    (block : DocBlock RichText Other) : ListBuffer RichText Other :=
  match block with
  | ListItemBlock kind (Some text) =>
      mkListBuffer (body st) (currentListItems st ++ [(text, kind)]) (Some kind)
  | ListItemBlock kind None => st
  | OtherBlock b =>
      match currentListItems st with
      | _ :: _ =>
          mkListBuffer
            (body st ++ appendListItems (currentListItems st) (currentListType st)
               ++ [Rendered b])
            [] None
      | [] => mkListBuffer (body st ++ [Rendered b]) (currentListItems st) (currentListType st)
      end
  end.

(** The block loop and the flush that follows it. *)
Definition renderBlocks {RichText Other} (blocks : list (DocBlock RichText Other))
    : list (DocElement RichText Other) :=
  let st := fold_left blockStep blocks (mkListBuffer [] [] None) in
  match currentListItems st with
  | _ :: _ => body st ++ appendListItems (currentListItems st) (currentListType st)
  | [] => body st
  end.

(** The extensions [mimeTypeToExtension] returns. *)
Definition storedExtensions : list string :=
  ["jpg"; "png"; "gif"; "webp"; "svg"; "bmp"; "tiff"].

(** The body once the pending list items are appended to it. *)
Definition flushed {RichText Other} (st : ListBuffer RichText Other)
    : list (DocElement RichText Other) :=
  body st ++ appendListItems (currentListItems st) (currentListType st).

(** The list items of a run of list blocks that have text. *)
Definition itemsOf {RichText} (run : list (Glyph * option RichText))
    : list (RichText * Glyph) :=
  omap (fun i => (fun text => (text, i.1)) <$> i.2) run.

(** A call that sets attributes or a link on the range from [s] to [e]. *)
Definition isRange (call : TextCall) (s e : nat) : Prop :=
  (∃ attributes, call = SetAttributes s e attributes)
  ∨ (∃ url, call = SetLinkUrl s e url).

(** * Properties *)

(** ** Change detection *)

Lemma detectChanges_fst now pp pages :
  (detectChanges now pp pages).1 = List.filter (isNewOrUpdated pp) pages.
Proof.
  induction pages as [|page rest IH]; simpl; [done|].
  destruct (detectChanges now pp rest) as [tp sk]; simpl in *.
  destruct (isNewOrUpdated pp page); simpl; congruence.
Qed.

Lemma detectChanges_snd now pp pages :
  (detectChanges now pp pages).2 =
  map (skippedResult now pp) (List.filter (fun p => negb (isNewOrUpdated pp p)) pages).
Proof.
  induction pages as [|page rest IH]; simpl; [done|].
  destruct (detectChanges now pp rest) as [tp sk]; simpl in *.
  destruct (isNewOrUpdated pp page); simpl; congruence.
Qed.

Lemma String_ltb_irrefl s : String.ltb s s = false.
Proof.
  unfold String.ltb.
  assert (H : String.compare s s = Eq).
  { induction s as [|c s IH]; simpl; [done|].
    unfold Ascii.compare. rewrite N.compare_refl. exact IH. }
  by rewrite H.
Qed.

Lemma js_lt_irrefl v : js_lt v v = false.
Proof.
  destruct v as [| |z|s]; simpl; try done.
  - apply Z.ltb_irrefl.
  - apply String_ltb_irrefl.
Qed.

Lemma js_lt_undefined_l v : js_lt JUndefined v = false.
Proof. by destruct v. Qed.

Lemma isNewOrUpdated_iff pp page :
  isNewOrUpdated pp page = true ↔ newOrUpdated pp page.
Proof.
  unfold isNewOrUpdated, newOrUpdated.
  destruct (pp !! page_id page) as [info|] eqn:E.
  - rewrite andb_true_iff. split.
    + intros [H1 H2]. right. by exists info.
    + intros [H|(info' & H & H1 & H2)]; [done|]. by simplify_eq.
  - split; [by left|done].
Qed.

(** C3, as stated, fails: an item whose stored time stamp is missing or
    unparseable is not put in [toProcess]; it is skipped. *)
Lemma detector_skips_on_unusable_stored_timestamp :
  (lastModified <$> staleState !! "A") = Some JUndefined
  ∧ (lastModified <$> staleState !! "B") = Some (JStr "not a date")
  ∧ (detectChanges "t" staleState [editedPageA; editedPageB]).1 = []
  ∧ map pageId (detectChanges "t" staleState [editedPageA; editedPageB]).2 = ["A"; "B"].
Proof. vm_compute. done. Qed.

(** C3 (amended): the Change Detector puts a listed item in [toProcess] if
    and only if it is absent from ItemState, or its own lastModifiedAt is
    present and the stored time stamp is strictly below it under [<]; all
    other listed items are pre-resolved to Skipped results, in listing
    order.  So equal time stamps are skipped, and so is every item whose
    stored time stamp is missing.  On ItemState [{A: t=100}] and snapshot
    [[A: t=100, B: t=None, C: t=150]], toSkip is [{A}] and toProcess is
    [{B, C}]. *)
Theorem change_detector_partition :
  (∀ now pp pages page,
      In page (detectChanges now pp pages).1 ↔ In page pages ∧ newOrUpdated pp page)
  ∧ (∀ now pp pages,
      (detectChanges now pp pages).2 =
      map (skippedResult now pp)
        (List.filter (fun page => negb (isNewOrUpdated pp page)) pages))
  ∧ (∀ pp page info,
      pp !! page_id page = Some info →
      lastModified info = last_edited_time page ∨ lastModified info = JUndefined →
      isNewOrUpdated pp page = false)
  ∧ (detectChanges "t" exampleState [examplePageA; examplePageB; examplePageC]).1
      = [examplePageB; examplePageC]
  ∧ map pageId (detectChanges "t" exampleState [examplePageA; examplePageB; examplePageC]).2
      = ["A"].
Proof.
  split; [|split; [|split; [|split]]].
  - intros now pp pages page.
    rewrite detectChanges_fst, filter_In, isNewOrUpdated_iff. done.
  - apply detectChanges_snd.
  - intros pp page info Hl [Heq|Hu]; unfold isNewOrUpdated; rewrite Hl.
    + rewrite Heq, js_lt_irrefl. apply andb_false_r.
    + rewrite Hu, js_lt_undefined_l. apply andb_false_r.
  - vm_compute. done.
  - vm_compute. done.
Qed.

(** The equal-time-stamp case of the theorem on the example. *)
Lemma change_detector_partition_witness :
  exampleState !! page_id examplePageA = Some (mkPageInfo (JNum 100) (Some "doc-A") "a")
  ∧ isNewOrUpdated exampleState examplePageA = false.
Proof.
  split; [vm_compute; done|].
  destruct change_detector_partition as (_ & _ & H & _).
  apply (H exampleState examplePageA (mkPageInfo (JNum 100) (Some "doc-A") "a")).
  - vm_compute. done.
  - left. reflexivity.
Defined.

(** ** The processing loop of the differential export *)

Lemma diffLoop_snoc env now w pp done page :
  diffLoop env now w pp (done ++ [page]) =
  processDiffPage env now (diffLoop env now w pp done) page.
Proof. unfold diffLoop. by rewrite fold_left_app. Qed.

Lemma processDiffPage_inv env now w pp st page :
  DiffLoopInv w pp st → DiffLoopInv w pp (processDiffPage env now st page).
Proof.
  intros [Hw Hc Hwr Hs]. unfold processDiffPage.
  destruct (convertBlocksToGoogleDocs _ _ _ _) as [msg file|msg]; split; simpl.
  - done.
  - intros id Hne. destruct (decide (page_id page = id)) as [->|Hid].
    + eexists. split; [apply in_or_app; right; left; reflexivity|done].
    + rewrite lookup_insert_ne in Hne by done.
      destruct (Hc id Hne) as (r & Hr & ? & ?).
      exists r. split; [apply in_or_app; by left|done].
  - intros r [Hr|[<-|[]]]%in_app_or Hst; simpl.
    + destruct (decide (page_id page = pageId r)) as [->|Hid].
      * rewrite lookup_insert_eq. by eexists.
      * rewrite lookup_insert_ne by done. by apply Hwr.
    + rewrite lookup_insert_eq. by eexists.
  - intros r [Hr|[<-|[]]]%in_app_or; [by apply Hs|by left].
  - done.
  - intros id Hne. destruct (Hc id Hne) as (r & Hr & ? & ?).
    exists r. split; [apply in_or_app; by left|done].
  - intros r [Hr|[<-|[]]]%in_app_or Hst; [by apply Hwr|done].
  - intros r [Hr|[<-|[]]]%in_app_or; [by apply Hs|by right].
Qed.

Lemma diffLoop_inv env now w pp done :
  DiffLoopInv w pp (diffLoop env now w pp done).
Proof.
  induction done as [|page done IH] using rev_ind.
  - split; simpl; done.
  - rewrite diffLoop_snoc. by apply processDiffPage_inv.
Qed.

Lemma skipped_status now pp pages r :
  In r (detectChanges now pp pages).2 → status r = Skipped.
Proof.
  rewrite detectChanges_snd, in_map_iff. by intros (page & <- & _).
Qed.

(** C5, as stated, fails: when the loop has exported page A with Success and
    page B is still to be processed, the in-memory object has the entry of
    A but the property store has no ItemState at all. *)
Lemma itemstate_not_persisted_upon_success :
  let env := listingEnv [titled "A" (JNum 1); titled "B" (JNum 2)] alwaysSaves in
  let st := diffLoop env "t" freshWorld ∅ [titled "A" (JNum 1)] in
  map status (ds_results st) = [Success]
  ∧ is_Some (ds_processedPages st !! "A")
  ∧ PROCESSED_PAGES_INFO (props (ds_world st)) = None.
Proof. vm_compute. split; [done|]. split; [by eexists|done]. Qed.

Lemma processDiffPage_step env now st page :
  ∃ r, ds_results (processDiffPage env now st page) = ds_results st ++ [r]
       ∧ pageId r = page_id page
       ∧ ds_world (processDiffPage env now st page) = ds_world st
       ∧ ((status r = Success
           ∧ ds_processedPages (processDiffPage env now st page)
             = <[page_id page :=
                   mkPageInfo (js_or (last_edited_time page) (JStr now)) (fileId r)
                     (getPageTitle page)]> (ds_processedPages st))
          ∨ (status r = Fail
             ∧ ds_processedPages (processDiffPage env now st page)
               = ds_processedPages st)).
Proof.
  unfold processDiffPage.
  destruct (convertBlocksToGoogleDocs _ _ _ _) as [msg file|msg]; simpl;
    eexists; (split; [reflexivity|]); simpl; repeat split; auto.
Qed.

(** Every Success among the results of the loop has left the entry of its id
    holding the time stamp and title of a processed page with that id and
    the document of a Success result for that id. *)
Lemma diffLoop_written env now w pp done :
  ∀ r, In r (ds_results (diffLoop env now w pp done)) → status r = Success →
    ∃ page r',
      In page done ∧ page_id page = pageId r
      ∧ In r' (ds_results (diffLoop env now w pp done))
      ∧ pageId r' = pageId r ∧ status r' = Success
      ∧ ds_processedPages (diffLoop env now w pp done) !! pageId r
        = Some (mkPageInfo (js_or (last_edited_time page) (JStr now)) (fileId r')
                  (getPageTitle page)).
Proof.
  induction done as [|page done IH] using rev_ind; [done|].
  rewrite diffLoop_snoc.
  destruct (processDiffPage_step env now (diffLoop env now w pp done) page)
    as (r0 & Hres & Hid & _ & Hmap).
  rewrite Hres. intros r Hr Hst.
  assert (Hold : In r (ds_results (diffLoop env now w pp done)) →
                 ∃ page' r', In page' done ∧ page_id page' = pageId r
                   ∧ In r' (ds_results (diffLoop env now w pp done))
                   ∧ pageId r' = pageId r ∧ status r' = Success
                   ∧ ds_processedPages (diffLoop env now w pp done) !! pageId r
                     = Some (mkPageInfo (js_or (last_edited_time page') (JStr now))
                               (fileId r') (getPageTitle page')))
    by (intros Hin; by apply IH).
  destruct Hmap as [[Hs0 ->]|[Hf0 ->]].
  - destruct (decide (pageId r = page_id page)) as [Heq|Hne].
    + exists page, r0. rewrite Heq, lookup_insert_eq.
      repeat split; try done; try congruence; apply in_or_app; right; by left.
    + apply in_app_or in Hr as [Hr|[<-|[]]]; [|congruence].
      destruct (Hold Hr) as (page' & r' & Hp & Hpid & Hr' & Hrid & Hrs & Hl).
      exists page', r'. rewrite lookup_insert_ne by congruence.
      repeat split; try done; apply in_or_app; by left.
  - apply in_app_or in Hr as [Hr|[<-|[]]]; [|congruence].
    destruct (Hold Hr) as (page' & r' & Hp & Hpid & Hr' & Hrid & Hrs & Hl).
    exists page', r'. repeat split; try done; apply in_or_app; by left.
Qed.

(** C5 (amended): an ItemState entry is written exactly for the items that
    yield a Success result, never for a Fail or Skipped one.  The write goes
    to the in-memory map upon the success, before the next item is taken: it
    sets the entry of the item to its edit time (the clock reading when it
    has none), the document of the result and its title, and a Fail leaves
    the map as it was.  The map is persisted once, after the last item of
    the run, and what is persisted is the map as the last item left it:
    while the loop runs the store is unchanged. *)
Theorem itemstate_written_on_success_persisted_at_end env now w pages w' results :
  exportListedPages env now w pages = (w', results) →
  let pp := readProcessedPages (props w) in
  let w1 := showAlert "差分エクスポートを開始します" w in
  (∀ done, props (ds_world (diffLoop env now w1 pp done)) = props w)
  ∧ (∀ done page,
       ∃ r, ds_results (diffLoop env now w1 pp (done ++ [page]))
            = ds_results (diffLoop env now w1 pp done) ++ [r]
          ∧ pageId r = page_id page
          ∧ ((status r = Success
              ∧ ds_processedPages (diffLoop env now w1 pp (done ++ [page]))
                = <[page_id page :=
                      mkPageInfo (js_or (last_edited_time page) (JStr now)) (fileId r)
                        (getPageTitle page)]>
                    (ds_processedPages (diffLoop env now w1 pp done)))
             ∨ (status r = Fail
                ∧ ds_processedPages (diffLoop env now w1 pp (done ++ [page]))
                  = ds_processedPages (diffLoop env now w1 pp done))))
  ∧ ∃ pp', PROCESSED_PAGES_INFO (props w') = Some (Encoded pp')
      ∧ pp' = ds_processedPages
                (diffLoop env now w1 pp (List.filter (isNewOrUpdated pp) pages))
      ∧ (∀ id, pp' !! id ≠ pp !! id →
           ∃ r, In r results ∧ pageId r = id ∧ status r = Success)
      ∧ (∀ r, In r results → status r = Success → is_Some (pp' !! pageId r))
      ∧ (∀ r, In r results → status r = Success →
           ∃ page r',
             In page pages ∧ page_id page = pageId r
             ∧ In r' results ∧ pageId r' = pageId r ∧ status r' = Success
             ∧ pp' !! pageId r
               = Some (mkPageInfo (js_or (last_edited_time page) (JStr now)) (fileId r')
                         (getPageTitle page))).
Proof.
  intros H pp w1. unfold exportListedPages in H. injection H as <- <-.
  fold pp w1. split; [|split].
  - intros done. by rewrite (inv_world _ _ _ (diffLoop_inv env now w1 pp done)).
  - intros done page. rewrite diffLoop_snoc.
    destruct (processDiffPage_step env now (diffLoop env now w1 pp done) page)
      as (r & Hres & Hid & _ & Hmap).
    by exists r.
  - pose proof (diffLoop_inv env now w1 pp (detectChanges now pp pages).1) as Hinv.
    pose proof (diffLoop_written env now w1 pp (detectChanges now pp pages).1) as Hwr.
    rewrite detectChanges_fst in Hinv, Hwr. rewrite detectChanges_fst.
    set (st := diffLoop env now w1 pp _) in *.
    exists (ds_processedPages st). simpl. split; [done|]. split; [done|].
    split; [|split].
    + intros id Hne. destruct (inv_changed _ _ _ Hinv id Hne) as (r & Hr & ? & ?).
      exists r. split; [apply in_or_app; by left|done].
    + intros r [Hr|Hr]%in_app_or Hst.
      * by apply (inv_written _ _ _ Hinv).
      * apply skipped_status in Hr. congruence.
    + intros r [Hr|Hr]%in_app_or Hst.
      * destruct (Hwr r Hr Hst) as (page & r' & Hp & Hpid & Hr' & Hrid & Hrs & Hl).
        exists page, r'. apply filter_In in Hp as [Hp _].
        repeat split; try done. apply in_or_app. by left.
      * apply skipped_status in Hr. congruence.
Qed.

Lemma itemstate_written_on_success_persisted_at_end_witness :
  let env := listingEnv [mkPage "A" (JNum 200) []; examplePageB] alwaysSaves in
  ∃ pp',
    PROCESSED_PAGES_INFO
      (props (exportListedPages env "t" worldWithExampleState
                [mkPage "A" (JNum 200) []; examplePageB]).1) = Some (Encoded pp')
    ∧ lastModified <$> exampleState !! "A" = Some (JNum 100)
    ∧ lastModified <$> pp' !! "A" = Some (JNum 200).
Proof.
  intros env.
  destruct (itemstate_written_on_success_persisted_at_end env "t" worldWithExampleState
              [mkPage "A" (JNum 200) []; examplePageB]
              (exportListedPages env "t" worldWithExampleState
                 [mkPage "A" (JNum 200) []; examplePageB]).1
              (exportListedPages env "t" worldWithExampleState
                 [mkPage "A" (JNum 200) []; examplePageB]).2
              eq_refl) as (_ & _ & pp' & H & -> & _).
  eexists. split; [exact H|]. vm_compute. done.
Defined.

(** ** Running the differential export twice *)

Lemma detectChanges_all_skipped now pp pages :
  (∀ page, In page pages → isNewOrUpdated pp page = false) →
  detectChanges now pp pages = ([], map (skippedResult now pp) pages).
Proof.
  induction pages as [|page rest IH]; simpl; intros H; [done|].
  rewrite IH by (intros; apply H; by right).
  by rewrite (H page) by (by left).
Qed.

(** After the loop has handled [done], whose ids are pairwise distinct: an
    id it did not meet keeps its entry, and a page it met either failed or
    has an entry carrying its own time stamp. *)
Lemma diffLoop_entries env now w pp done :
  NoDup (map page_id done) →
  let st := diffLoop env now w pp done in
  (∀ id, ¬ In id (map page_id done) → ds_processedPages st !! id = pp !! id)
  ∧ (∀ page, In page done →
       (∃ r, In r (ds_results st) ∧ status r = Fail)
       ∨ ∃ info, ds_processedPages st !! page_id page = Some info
                 ∧ lastModified info = js_or (last_edited_time page) (JStr now)).
Proof.
  induction done as [|page done IH] using rev_ind; intros Hnd st.
  - split; [done|]. intros page [].
  - subst st. rewrite diffLoop_snoc.
    rewrite map_app in Hnd. simpl in Hnd.
    apply NoDup_app in Hnd as (Hnd & Hfresh & _).
    destruct (IH Hnd) as [Hframe Hmet]. clear IH.
    assert (Hnew : ¬ In (page_id page) (map page_id done)).
    { intros Hin. apply (Hfresh (page_id page)).
      - by apply list_elem_of_In.
      - apply list_elem_of_here. }
    set (st := diffLoop env now w pp done) in *.
    unfold processDiffPage.
    destruct (convertBlocksToGoogleDocs _ _ _ _) as [msg file|msg]; simpl; split.
    + intros id Hid. rewrite map_app, in_app_iff in Hid. simpl in Hid.
      rewrite lookup_insert_ne by tauto. apply Hframe. tauto.
    + intros page' [Hin|[<-|[]]]%in_app_or.
      * destruct (Hmet page' Hin) as [(r & Hr & Hf)|(info & Hl & Ht)].
        -- left. exists r. split; [apply in_or_app; by left|done].
        -- right. exists info. split; [|done].
           rewrite lookup_insert_ne; [done|].
           intros Heq. apply Hnew. rewrite Heq. by apply in_map.
      * right. eexists. rewrite lookup_insert_eq. split; reflexivity.
    + intros id Hid. rewrite map_app, in_app_iff in Hid. apply Hframe. tauto.
    + intros page' [Hin|[<-|[]]]%in_app_or.
      * destruct (Hmet page' Hin) as [(r & Hr & Hf)|(info & Hl & Ht)].
        -- left. exists r. split; [apply in_or_app; by left|done].
        -- right. by exists info.
      * left. eexists. split; [apply in_or_app; right; by left|done].
Qed.

Lemma js_or_not_newer t now : truthy t && js_lt (js_or t now) t = false.
Proof.
  unfold js_or. destruct (truthy t) eqn:E; [|done].
  simpl. apply js_lt_irrefl.
Qed.

Lemma NoDup_map_inj_in {A B} (f : A → B) (l : list A) x y :
  NoDup (map f l) → In x l → In y l → f x = f y → x = y.
Proof.
  induction l as [|a l IH]; simpl; [done|].
  intros Hnd Hx Hy Hf. apply NoDup_cons in Hnd as [Ha Hnd].
  destruct Hx as [->|Hx], Hy as [->|Hy]; [done| | |by apply IH].
  - exfalso. apply Ha. apply list_elem_of_In. rewrite Hf. by apply in_map.
  - exfalso. apply Ha. apply list_elem_of_In. rewrite <- Hf. by apply in_map.
Qed.

Lemma NoDup_map_filter {A B} (f : A → B) (P : A → bool) (l : list A) :
  NoDup (map f l) → NoDup (map f (List.filter P l)).
Proof.
  induction l as [|a l IH]; simpl; [done|].
  intros [Ha Hnd]%NoDup_cons. destruct (P a); simpl; [|by apply IH].
  apply NoDup_cons. split; [|by apply IH].
  intros Hin. apply Ha. apply list_elem_of_In. apply list_elem_of_In in Hin.
  apply in_map_iff in Hin as (x & <- & [Hx _]%filter_In). by apply in_map.
Qed.

(** After a run without failure no listed page counts as new or updated. *)
Lemma nothing_left_after_clean_run env now w pp pages :
  NoDup (map page_id pages) →
  let st := diffLoop env now w pp (detectChanges now pp pages).1 in
  (∀ r, In r (ds_results st) → status r ≠ Fail) →
  ∀ page, In page pages → isNewOrUpdated (ds_processedPages st) page = false.
Proof.
  intros Hnd st Hok page Hin.
  pose proof (NoDup_map_filter page_id (isNewOrUpdated pp) pages Hnd) as Hnd'.
  rewrite <- (detectChanges_fst now) in Hnd'.
  destruct (diffLoop_entries env now w pp _ Hnd') as [Hframe Hmet]. fold st in Hframe, Hmet.
  destruct (isNewOrUpdated pp page) eqn:Hnew.
  - assert (Hin' : In page (detectChanges now pp pages).1).
    { rewrite detectChanges_fst. apply filter_In. done. }
    destruct (Hmet page Hin') as [(r & Hr & Hf)|(info & Hl & Ht)].
    + by destruct (Hok r Hr).
    + unfold isNewOrUpdated. rewrite Hl, Ht. apply js_or_not_newer.
  - unfold isNewOrUpdated. rewrite Hframe; [exact Hnew|].
    rewrite detectChanges_fst. intros (page' & Heq & [Hin' Hp]%filter_In)%in_map_iff.
    assert (page' = page) as ->
      by exact (NoDup_map_inj_in page_id pages page' page Hnd Hin' Hin Heq).
    congruence.
Qed.

Lemma export_returns_results env now w w' rs :
  exportDifferentialNotionPages env now w = (w', Some rs) →
  ∃ db folder,
    loadSettings env = inr (db, folder)
    ∧ truthy_text (NOTION_API_KEY (props w)) = true
    ∧ getNotionDatabasePages env db ≠ []
    ∧ exportListedPages env now w (getNotionDatabasePages env db) = (w', rs).
Proof.
  unfold exportDifferentialNotionPages.
  destruct (loadSettings env) as [notice|[db folder]] eqn:Hs; [done|].
  destruct (truthy_text (NOTION_API_KEY (props w))) eqn:Hk; simpl; [|done].
  destruct (getNotionDatabasePages env db) as [|page pages] eqn:E; [done|].
  destruct (exportListedPages env now w (page :: pages)) as [w1 rs1] eqn:Hrun.
  intros [= <- <-]. exists db, folder. rewrite E. done.
Qed.

Lemma export_of_listing env now w db folder :
  loadSettings env = inr (db, folder) →
  truthy_text (NOTION_API_KEY (props w)) = true →
  getNotionDatabasePages env db ≠ [] →
  exportDifferentialNotionPages env now w =
  ((exportListedPages env now w (getNotionDatabasePages env db)).1,
   Some (exportListedPages env now w (getNotionDatabasePages env db)).2).
Proof.
  intros Hs Hk Hp. unfold exportDifferentialNotionPages. rewrite Hs, Hk. simpl.
  destruct (getNotionDatabasePages env db) as [|page pages]; [done|].
  by destruct (exportListedPages env now w (page :: pages)).
Qed.

Lemma no_success_among_skipped now pp pages :
  List.filter (fun r => Status_eqb (status r) Success)
    (map (skippedResult now pp) pages) = [].
Proof. induction pages as [|page rest IH]; simpl; [done|exact IH]. Qed.

(** C9, as stated, fails: a run that completes with a failed item leaves no
    entry for that item, so the second run processes it again instead of
    skipping it. *)
Lemma second_run_retries_failed_item :
  let env := listingEnv [titled "A" (JNum 1); titled "B" (JNum 2)] refusesB in
  let run1 := exportDifferentialNotionPages env "t1" freshWorld in
  let run2 := exportDifferentialNotionPages env "t2" run1.1 in
  (map (fun r => (pageId r, status r)) <$> run1.2) = Some [("A", Success); ("B", Fail)]
  ∧ (map (fun r => (pageId r, status r)) <$> run2.2) = Some [("B", Fail); ("A", Skipped)].
Proof. vm_compute. done. Qed.

(** C9 (amended): if an export run over a listing with pairwise distinct ids
    completes without a Fail result and a second run is started with no
    source change in between, the second run yields one Skipped result for
    every listed item and no other result, and the persisted ItemState after
    the second run equals the ItemState before it. *)
Theorem second_run_after_clean_run_skips_all env now1 now2 w w1 results1 :
  (∀ db, NoDup (map page_id (getNotionDatabasePages env db))) →
  exportDifferentialNotionPages env now1 w = (w1, Some results1) →
  (∀ r, In r results1 → status r ≠ Fail) →
  ∃ w2 results2 db folder,
    exportDifferentialNotionPages env now2 w1 = (w2, Some results2)
    ∧ loadSettings env = inr (db, folder)
    ∧ map pageId results2 = map page_id (getNotionDatabasePages env db)
    ∧ (∀ r, In r results2 → status r = Skipped)
    ∧ List.filter (fun r => Status_eqb (status r) Success) results2 = []
    ∧ PROCESSED_PAGES_INFO (props w2) = PROCESSED_PAGES_INFO (props w1).
Proof.
  intros Hnd Hrun Hok.
  apply export_returns_results in Hrun as (db & folder & Hs & Hk & Hp & Hrun).
  set (pages := getNotionDatabasePages env db) in *.
  unfold exportListedPages in Hrun. injection Hrun as <- <-.
  set (pp := readProcessedPages (props w)) in *.
  set (st := diffLoop env now1 (showAlert "差分エクスポートを開始します" w) pp
               (detectChanges now1 pp pages).1) in *.
  assert (Hnone : ∀ page, In page pages →
            isNewOrUpdated (ds_processedPages st) page = false).
  { apply (nothing_left_after_clean_run env now1 _ pp pages (Hnd db)).
    intros r Hr. apply Hok. apply in_or_app. by left. }
  set (w1 := showAlert "差分エクスポート完了" _).
  assert (Hw : ds_world st = showAlert "差分エクスポートを開始します" w)
    by apply (inv_world _ _ _ (diffLoop_inv env now1 _ pp _)).
  assert (Hpp1 : readProcessedPages (props w1) = ds_processedPages st) by done.
  assert (Hk1 : truthy_text (NOTION_API_KEY (props w1)) = true).
  { subst w1. simpl. by rewrite Hw. }
  eexists _, _, db, folder.
  split; [exact (export_of_listing env now2 w1 db folder Hs Hk1 Hp)|].
  split; [done|].
  fold pages. unfold exportListedPages. rewrite Hpp1.
  rewrite (detectChanges_all_skipped now2 _ pages Hnone). simpl.
  split; [|split; [|split]].
  - rewrite map_map. simpl. done.
  - intros r (page & <- & _)%in_map_iff. done.
  - apply no_success_among_skipped.
  - done.
Qed.

Lemma second_run_after_clean_run_skips_all_witness :
  let env := listingEnv [titled "A" (JNum 1); titled "B" (JNum 2)] alwaysSaves in
  let run1 := exportDifferentialNotionPages env "t1" freshWorld in
  ∃ w2 results2,
    exportDifferentialNotionPages env "t2" run1.1 = (w2, Some results2)
    ∧ ∀ r, In r results2 → status r = Skipped.
Proof.
  intros env run1.
  destruct (second_run_after_clean_run_skips_all env "t1" "t2" freshWorld run1.1
              [mkResult "A" "A" Success "saved" "t1" (Some "doc-A");
               mkResult "B" "B" Success "saved" "t1" (Some "doc-B")])
    as (w2 & results2 & db & folder & H & _ & _ & Hall & _).
  - intros db. refine (bool_decide_unpack _ _). vm_compute. exact I.
  - vm_compute. reflexivity.
  - intros r [<-|[<-|[]]]; simpl; discriminate.
  - by exists w2, results2.
Defined.

(** ** The page loop and one chunk of the batch export *)

Lemma set_PROCESSED_PAGES_same p : set_PROCESSED_PAGES (PROCESSED_PAGES p) p = p.
Proof. by destruct p. Qed.

Lemma pageLoop_spec env now ids : ∀ st0,
  let st := fold_left (pageLoopBody env now) ids st0 in
  ls_processedPages st = ls_processedPages st0 + length ids
  ∧ ls_results st = ls_results st0 ++ map (processPage env now) ids
  ∧ triggers (ls_world st) = triggers (ls_world st0)
  ∧ log (ls_world st) = log (ls_world st0)
  ∧ ∃ x, props (ls_world st) = set_PROCESSED_PAGES x (props (ls_world st0)).
Proof.
  induction ids as [|pageId ids IH]; intros st0; simpl.
  - rewrite Nat.add_0_r, app_nil_r. repeat split.
    exists (PROCESSED_PAGES (props (ls_world st0))).
    by rewrite set_PROCESSED_PAGES_same.
  - destruct (IH (pageLoopBody env now st0 pageId)) as (Hn & Hr & Ht & Hl & x & Hx).
    rewrite Hn, Hr, Ht, Hl, Hx. simpl. rewrite <- app_assoc. simpl.
    repeat split; [lia|]. by exists x.
Qed.

Lemma processChunk_eq batchSize env now w l ids :
  readPageIds (props w) = Ok ids →
  let new := map (processPage env now) (chunk batchSize (currentBatchIndex l) (totalPages l) ids) in
  processChunk batchSize env now w l =
  if Nat.leb (totalPages l)
       (Nat.min (currentBatchIndex l * batchSize + batchSize) (totalPages l))
  then Returned
         (deleteTriggers
            (with_props deleteBatchProps
               (completeAndSummary (batchResults l ++ new) (batchStartedAt l)
                  (afterChunk w l new))))
  else Returned (createTriggerForNextBatch (afterChunk w l new)).
Proof.
  intros Hids new. unfold processChunk. rewrite Hids.
  fold (chunk batchSize (currentBatchIndex l) (totalPages l) ids).
  destruct (pageLoop_spec env now
              (chunk batchSize (currentBatchIndex l) (totalPages l) ids)
              (mkLoopState w (processedPages l) [])) as (Hn & Hr & Ht & Hl & x & Hx).
  simpl in Hn, Hr, Ht, Hl, Hx.
  set (st := fold_left _ _ _) in *.
  assert (Hw : recordResultsToSpreadsheet (ls_results st)
                 (with_props
                    (fun p =>
                       set_BATCH_RESULTS (Some (Encoded (batchResults l ++ ls_results st)))
                         (set_PROCESSED_PAGES (Some (ls_processedPages st))
                            (set_CURRENT_BATCH_INDEX (Some (S (currentBatchIndex l))) p)))
                    (ls_world st))
               = afterChunk w l new).
  { unfold recordResultsToSpreadsheet, emit, with_props, afterChunk. simpl.
    rewrite Ht, Hl, Hx, Hn, Hr. subst new. rewrite length_map. done. }
  rewrite Hw, Hr. done.
Qed.

(** ** One invocation of [processBatchExport] *)

Lemma processBatchExport_running batchSize env now w db folder stored :
  loadSettings env = inr (db, folder) →
  inProgress (props w) = true →
  readBatchResults (props w) = Ok stored →
  processBatchExport batchSize env now w =
  processChunk batchSize env now w
    (mkLocals (default 0 (CURRENT_BATCH_INDEX (props w)))
       (default 0 (TOTAL_PAGES (props w)))
       (default 0 (PROCESSED_PAGES (props w)))
       (BATCH_STARTED_AT (props w)) stored).
Proof.
  intros Hs Hf Hr. unfold processBatchExport. by rewrite Hs, Hr, Hf.
Qed.

Lemma initialiseBatch_listing env db now w l :
  getNotionDatabasePages env db ≠ [] →
  initialiseBatch env db now w l =
  Proceed
    (showAlert "バッチ処理を開始します"
       (with_props (initialisedProps now (map page_id (getNotionDatabasePages env db))) w))
    (mkLocals 0 (length (map page_id (getNotionDatabasePages env db)))
       (processedPages l) (Some now) []).
Proof.
  intros Hp. unfold initialiseBatch.
  by destruct (getNotionDatabasePages env db).
Qed.

Lemma processBatchExport_first batchSize env now w db folder stored :
  loadSettings env = inr (db, folder) →
  inProgress (props w) = false →
  readBatchResults (props w) = Ok stored →
  getNotionDatabasePages env db ≠ [] →
  let pageIds := map page_id (getNotionDatabasePages env db) in
  processBatchExport batchSize env now w =
  processChunk batchSize env now
    (showAlert "バッチ処理を開始します" (with_props (initialisedProps now pageIds) w))
    (mkLocals 0 (length pageIds) (default 0 (PROCESSED_PAGES (props w))) (Some now) []).
Proof.
  intros Hs Hf Hr Hp pageIds. unfold processBatchExport.
  rewrite Hs, Hr, Hf. by rewrite initialiseBatch_listing.
Qed.

Lemma startBatchExport_first batchSize env now w db folder stored :
  loadSettings env = inr (db, folder) →
  truthy_text (NOTION_API_KEY (props w)) = true →
  readBatchResults (props w) = Ok stored →
  getNotionDatabasePages env db ≠ [] →
  let pageIds := map page_id (getNotionDatabasePages env db) in
  startBatchExport batchSize env now w =
  processChunk batchSize env now
    (showAlert "バッチ処理を開始します"
       (deleteTriggers (with_props (initialisedProps now pageIds) w)))
    (mkLocals 0 (length pageIds) (default 0 (PROCESSED_PAGES (props w))) (Some now) []).
Proof.
  intros Hs Hk Hr Hp pageIds. unfold startBatchExport. rewrite Hk, Hs. simpl.
  erewrite processBatchExport_first; eauto.
Qed.

(** ** A run of the batch export over several invocations *)

Lemma untimed_processPage env now pageId :
  untimed (processPage env now pageId) = outcome env pageId.
Proof.
  unfold outcome, processPage.
  destruct (getNotionPageById env pageId) as [page|]; [|done].
  by destruct (convertBlocksToGoogleDocs _ _ _ _).
Qed.

Lemma chunk_take batchSize k (ids : list string) :
  take (k * batchSize) ids ++ chunk batchSize k (length ids) ids =
  take (Nat.min (k * batchSize + batchSize) (length ids)) ids.
Proof.
  unfold chunk, slice. rewrite take_take_drop.
  destruct (decide (k * batchSize ≤ length ids)) as [Hle|Hgt].
  - f_equal. lia.
  - rewrite !take_ge by lia. done.
Qed.

Section RunInvariant.

Variable batchSize : nat.
Variable env : Env.

(** The view through which accumulated results are followed, and the clock
    readings at which the view of a processed page is [ideal]. *)
Variable view : Result → Result.
Variable ideal : string → Result.
Variable admissible : string → Prop.
Hypothesis view_processPage :
  ∀ now pageId, admissible now → view (processPage env now pageId) = ideal pageId.

Lemma view_processed now ids :
  admissible now → map view (map (processPage env now) ids) = map ideal ids.
Proof.
  intros Hnow. rewrite map_map. apply map_ext. intros. by apply view_processPage.
Qed.

Lemma chunk_step now w l ids :
  admissible now →
  readPageIds (props w) = Ok ids →
  BATCH_IN_PROGRESS (props w) = Some "true" →
  TOTAL_PAGES (props w) = Some (length ids) →
  totalPages l = length ids →
  map view (batchResults l) = map ideal (take (currentBatchIndex l * batchSize) ids) →
  let k := currentBatchIndex l in
  let new := map (processPage env now) (chunk batchSize k (length ids) ids) in
  ((k + 1) * batchSize < length ids →
     ∃ w', processChunk batchSize env now w l = Returned w'
           ∧ InRun batchSize view ideal ids (S k) (props w')
           ∧ triggers w' = 1
           ∧ lastRecorded (log w') = Some new)
  ∧ (length ids ≤ (k + 1) * batchSize →
     ∃ w' R, processChunk batchSize env now w l = Returned w'
           ∧ lastSummary (log w') = Some R
           ∧ map view R = map ideal ids
           ∧ lastRecorded (log w') = Some new
           ∧ triggers w' = 0
           ∧ props w' = deleteBatchProps (props w)).
Proof.
  intros Hnow Hids Hflag Htot Hl HR k new.
  pose proof (processChunk_eq batchSize env now w l ids Hids) as Heq.
  simpl in Heq. rewrite Hl in Heq. fold k new in Heq.
  assert (Hall : map view (batchResults l ++ new) =
                 map ideal (take (Nat.min (k * batchSize + batchSize) (length ids)) ids)).
  { rewrite map_app, HR. subst new. rewrite (view_processed now _ Hnow), <- map_app.
    fold k. by rewrite chunk_take. }
  assert (Hpid : BATCH_PAGE_IDS (props w) = Some (Encoded ids)).
  { unfold readPageIds in Hids. destruct (BATCH_PAGE_IDS (props w)) as [[raw|x]|]; congruence. }
  split; intros Hk.
  - rewrite Heq. replace (Nat.leb _ _) with false by (symmetry; apply Nat.leb_gt; lia).
    eexists. split; [reflexivity|]. split; [|split].
    + split; simpl; try done.
      eexists. split; [reflexivity|]. rewrite Hall. f_equal. f_equal. lia.
    + done.
    + simpl. unfold lastRecorded. by rewrite fold_left_app.
  - rewrite Heq. replace (Nat.leb _ _) with true by (symmetry; apply Nat.leb_le; lia).
    eexists _, _. split; [reflexivity|]. split; [|split; [|split; [|split]]].
    + simpl. unfold lastSummary. rewrite !fold_left_app. simpl. reflexivity.
    + rewrite Hall. by rewrite take_ge by lia.
    + simpl. unfold lastRecorded. rewrite !fold_left_app. simpl. reflexivity.
    + done.
    + simpl. by destruct (props w).
Qed.

Lemma tick_in_run now w db folder ids k :
  admissible now →
  loadSettings env = inr (db, folder) →
  InRun batchSize view ideal ids k (props w) →
  let new := map (processPage env now) (chunk batchSize k (length ids) ids) in
  ((k + 1) * batchSize < length ids →
     ∃ w', processBatchExport batchSize env now w = Returned w'
           ∧ InRun batchSize view ideal ids (S k) (props w')
           ∧ triggers w' = 1
           ∧ lastRecorded (log w') = Some new)
  ∧ (length ids ≤ (k + 1) * batchSize →
     ∃ w' R, processBatchExport batchSize env now w = Returned w'
           ∧ lastSummary (log w') = Some R
           ∧ map view R = map ideal ids
           ∧ triggers w' = 0
           ∧ lastRecorded (log w') = Some new).
Proof.
  intros Hnow Hs [Hflag Hidx Htot Hids (R & HR & Hout)] new.
  assert (Hrun : inProgress (props w) = true) by (unfold inProgress; by rewrite Hflag).
  assert (Hread : readBatchResults (props w) = Ok R) by (unfold readBatchResults; by rewrite HR).
  rewrite (processBatchExport_running batchSize env now w db folder R Hs Hrun Hread).
  rewrite Hidx, Htot. simpl.
  set (l := mkLocals k (length ids) _ _ R).
  assert (Hpid : readPageIds (props w) = Ok ids) by (unfold readPageIds; by rewrite Hids).
  destruct (chunk_step now w l ids Hnow Hpid Hflag Htot eq_refl Hout) as [Hmore Hlast].
  split; intros Hk.
  - exact (Hmore Hk).
  - destruct (Hlast Hk) as (w' & R' & H1 & H2 & H3 & H4 & H5 & _).
    by exists w', R'.
Qed.

(** Continuations that do not reach the end of the queue. *)
Lemma continuations_progress db folder ids :
  loadSettings env = inr (db, folder) →
  ∀ clock w j,
    Forall admissible clock →
    InRun batchSize view ideal ids j (props w) →
    0 < triggers w →
    (j + length clock) * batchSize < length ids →
    ∃ w', continuations batchSize env clock w = Returned w'
          ∧ InRun batchSize view ideal ids (j + length clock) (props w')
          ∧ 0 < triggers w'.
Proof.
  intros Hs. induction clock as [|now later IH]; intros w j Hclock Hrun Htr Hlt; simpl.
  - exists w. rewrite Nat.add_0_r. done.
  - destruct (triggers w) as [|t] eqn:Et; [lia|].
    simpl in Hlt. apply Forall_cons in Hclock as [Hnow Hlater].
    destruct (tick_in_run now w db folder ids j Hnow Hs Hrun) as [Hmore _].
    destruct Hmore as (w1 & -> & Hrun1 & Ht1 & _); [nia|].
    destruct (IH w1 (S j) Hlater Hrun1) as (w' & Hc & Hrun' & Ht'); [lia|simpl; nia|].
    exists w'. split; [done|]. split; [|done].
    by replace (j + S (length later)) with (S j + length later) by lia.
Qed.

(** Continuations that reach the end of the queue. *)
Lemma continuations_finish db folder ids :
  loadSettings env = inr (db, folder) →
  ∀ clock w j,
    Forall admissible clock →
    InRun batchSize view ideal ids j (props w) →
    0 < triggers w →
    j * batchSize < length ids →
    length ids ≤ (j + length clock) * batchSize →
    ∃ w' R, continuations batchSize env clock w = Returned w'
            ∧ lastSummary (log w') = Some R
            ∧ map view R = map ideal ids.
Proof.
  intros Hs. induction clock as [|now later IH]; intros w j Hclock Hrun Htr Hlt Hge; simpl.
  - simpl in Hge. lia.
  - destruct (triggers w) as [|t] eqn:Et; [lia|].
    apply Forall_cons in Hclock as [Hnow Hlater].
    destruct (tick_in_run now w db folder ids j Hnow Hs Hrun) as [Hmore Hlast].
    destruct (decide (length ids ≤ (j + 1) * batchSize)) as [Hend|Hnot].
    + destruct (Hlast Hend) as (w1 & R & -> & Hsum & Hout & Ht1 & _).
      exists w1, R. split; [|done].
      destruct later; simpl; [done|]. by rewrite Ht1.
    + destruct Hmore as (w1 & -> & Hrun1 & Ht1 & _); [lia|].
      apply (IH w1 (S j) Hlater Hrun1); [lia|lia|].
      simpl in Hge. by replace (S j + length later) with (j + S (length later)) by lia.
Qed.

Lemma started_run now w db folder stored :
  admissible now →
  loadSettings env = inr (db, folder) →
  truthy_text (NOTION_API_KEY (props w)) = true →
  readBatchResults (props w) = Ok stored →
  getNotionDatabasePages env db ≠ [] →
  let ids := map page_id (getNotionDatabasePages env db) in
  let new := map (processPage env now) (chunk batchSize 0 (length ids) ids) in
  (batchSize < length ids →
     ∃ w', startBatchExport batchSize env now w = Returned w'
           ∧ InRun batchSize view ideal ids 1 (props w')
           ∧ triggers w' = 1
           ∧ lastRecorded (log w') = Some new)
  ∧ (length ids ≤ batchSize →
     ∃ w' R, startBatchExport batchSize env now w = Returned w'
           ∧ lastSummary (log w') = Some R
           ∧ map view R = map ideal ids
           ∧ triggers w' = 0
           ∧ lastRecorded (log w') = Some new).
Proof.
  intros Hnow Hs Hk Hr Hp ids new.
  rewrite (startBatchExport_first batchSize env now w db folder stored Hs Hk Hr Hp).
  fold ids.
  set (wi := showAlert _ _). set (l := mkLocals 0 _ _ _ _).
  destruct (chunk_step now wi l ids) as [Hmore Hlast]; try done.
  split; intros Hn.
  - apply Hmore. simpl. lia.
  - destruct Hlast as (w' & R & H1 & H2 & H3 & H4 & H5 & _); [simpl; lia|].
    by exists w', R.
Qed.

Lemma run_reaches now0 ticks w0 db folder stored :
  admissible now0 → Forall admissible ticks →
  loadSettings env = inr (db, folder) →
  truthy_text (NOTION_API_KEY (props w0)) = true →
  readBatchResults (props w0) = Ok stored →
  getNotionDatabasePages env db ≠ [] →
  let ids := map page_id (getNotionDatabasePages env db) in
  (length ticks + 1) * batchSize < length ids →
  ∃ wk, exportRun batchSize env (now0 :: ticks) w0 = Returned wk
        ∧ InRun batchSize view ideal ids (length ticks + 1) (props wk)
        ∧ 0 < triggers wk.
Proof.
  intros Hnow Hticks Hs Hk Hr Hp ids Hlt.
  destruct (started_run now0 w0 db folder stored Hnow Hs Hk Hr Hp) as [Hmore _].
  fold ids in Hmore.
  destruct Hmore as (w1 & Hstart & Hrun1 & Ht1 & _); [nia|].
  destruct (continuations_progress db folder ids Hs ticks w1 1 Hticks Hrun1)
    as (wk & Hc & Hrunk & Htk); [lia|nia|].
  replace (1 + length ticks) with (length ticks + 1) in Hrunk by lia.
  exists wk. split; [|done]. simpl. by rewrite Hstart.
Qed.

End RunInvariant.

(** Two views: results without their clock reading, at any reading; and
    results as they are, at one fixed reading. *)
Lemma untimed_view env now pageId :
  True → untimed (processPage env now pageId) = outcome env pageId.
Proof. intros _. apply untimed_processPage. Qed.

Lemma exact_view env now0 now pageId :
  now = now0 → (fun r => r) (processPage env now pageId) = processPage env now0 pageId.
Proof. by intros ->. Qed.

(** C4: for every listing and every positive chunk size, when the run has
    been driven through chunk [k] and is not finished, the persisted cursor
    is [k+1]; an invocation that starts from nothing but that persisted store
    handles chunk [k+1]; and the run continued from the persisted store ends
    with the same accumulated results as a single invocation that handles
    the whole queue: the same up to the clock reading each result carries,
    and identical when the clock shows the same reading throughout. *)
Theorem resumed_run_matches_uninterrupted_run batchSize env db folder w0 stale now0 ticks :
  0 < batchSize →
  loadSettings env = inr (db, folder) →
  truthy_text (NOTION_API_KEY (props w0)) = true →
  readBatchResults (props w0) = Ok stale →
  getNotionDatabasePages env db ≠ [] →
  let ids := map page_id (getNotionDatabasePages env db) in
  let k := length ticks in
  (k + 1) * batchSize < length ids →
  ∃ wk,
    exportRun batchSize env (now0 :: ticks) w0 = Returned wk
    ∧ CURRENT_BATCH_INDEX (props wk) = Some (k + 1)
    ∧ (∀ now w', props w' = props wk →
         ∃ w'', processBatchExport batchSize env now w' = Returned w''
                ∧ lastRecorded (log w'') =
                  Some (map (processPage env now) (chunk batchSize (k + 1) (length ids) ids)))
    ∧ (∀ later w', props w' = props wk → 0 < triggers w' →
         length ids ≤ (k + 1 + length later) * batchSize →
         ∃ wf R wu U,
           continuations batchSize env later w' = Returned wf
           ∧ lastSummary (log wf) = Some R
           ∧ exportRun (length ids) env [now0] w0 = Returned wu
           ∧ lastSummary (log wu) = Some U
           ∧ map untimed R = map untimed U
           ∧ (Forall (fun now => now = now0) (ticks ++ later) → R = U)).
Proof.
  intros Hpos Hs Hk Hr Hp ids k Hlt.
  assert (Hany : ∀ clock : list string, Forall (fun _ => True) clock)
    by (intros clock; by apply Forall_forall).
  destruct (run_reaches batchSize env untimed (outcome env) (fun _ => True) (untimed_view env)
              now0 ticks w0 db folder stale I (Hany ticks) Hs Hk Hr Hp Hlt)
    as (wk & Hrun & Hrunk & Htk).
  fold k ids in Hrunk.
  exists wk. split; [done|]. split; [apply (run_index _ _ _ _ _ _ Hrunk)|]. split.
  - intros now w' Hw'. rewrite <- Hw' in Hrunk.
    destruct (tick_in_run batchSize env untimed (outcome env) (fun _ => True) (untimed_view env)
                now w' db folder ids (k + 1) I Hs Hrunk) as [Hmore Hlast].
    destruct (decide (length ids ≤ (k + 1 + 1) * batchSize)) as [Hend|Hnot].
    + destruct (Hlast Hend) as (w'' & R & H1 & _ & _ & _ & H5). by exists w''.
    + destruct Hmore as (w'' & H1 & _ & _ & H4); [lia|]. by exists w''.
  - intros later w' Hw' Htr Hge.
    assert (Hrun' := Hrunk). rewrite <- Hw' in Hrun'.
    destruct (continuations_finish batchSize env untimed (outcome env) (fun _ => True)
                (untimed_view env) db folder ids Hs later w' (k + 1) (Hany later) Hrun' Htr Hlt Hge)
      as (wf & R & Hf & Hsum & Hout).
    destruct (started_run (length ids) env untimed (outcome env) (fun _ => True)
                (untimed_view env) now0 w0 db folder stale I Hs Hk Hr Hp) as [_ Hone].
    fold ids in Hone.
    destruct Hone as (wu & U & Hu & Hsu & Hou & _); [done|].
    exists wf, R, wu, U.
    split; [done|]. split; [done|]. split; [simpl; by rewrite Hu|].
    split; [done|]. split; [by rewrite Hout, Hou|].
    intros [Hticks Hlater]%Forall_app.
    destruct (run_reaches batchSize env (fun r => r) (processPage env now0)
                (fun now => now = now0) (exact_view env now0)
                now0 ticks w0 db folder stale eq_refl Hticks Hs Hk Hr Hp Hlt)
      as (wk' & Hrunx & Hrunkx & _).
    fold k ids in Hrunkx.
    rewrite Hrun in Hrunx. injection Hrunx as <-. rewrite <- Hw' in Hrunkx.
    destruct (continuations_finish batchSize env (fun r => r) (processPage env now0)
                (fun now => now = now0) (exact_view env now0)
                db folder ids Hs later w' (k + 1) Hlater Hrunkx Htr Hlt Hge)
      as (wf' & R' & Hf' & Hsum' & Hout').
    rewrite Hf in Hf'. injection Hf' as <-.
    rewrite Hsum in Hsum'. injection Hsum' as <-.
    destruct (started_run (length ids) env (fun r => r) (processPage env now0)
                (fun now => now = now0) (exact_view env now0)
                now0 w0 db folder stale eq_refl Hs Hk Hr Hp) as [_ Honex].
    fold ids in Honex.
    destruct Honex as (wu' & U' & Hu' & Hsu' & Hou' & _); [done|].
    rewrite Hu in Hu'. injection Hu' as <-.
    rewrite Hsu in Hsu'. injection Hsu' as <-.
    rewrite map_id in Hout', Hou'. congruence.
Qed.

Lemma resumed_run_matches_uninterrupted_run_witness :
  let env := listingEnv (pagesNamed twelveNames) alwaysSaves in
  ∃ wk, exportRun BATCH_SIZE env ["t0"; "t1"] freshWorld = Returned wk
        ∧ CURRENT_BATCH_INDEX (props wk) = Some 2.
Proof.
  intros env.
  destruct (resumed_run_matches_uninterrupted_run BATCH_SIZE env "db-1" "folder-1"
              freshWorld [] "t0" ["t1"]) as (wk & Hrun & Hidx & _).
  - unfold BATCH_SIZE. lia.
  - reflexivity.
  - reflexivity.
  - reflexivity.
  - vm_compute. discriminate.
  - vm_compute. lia.
  - by exists wk.
Defined.

(** ** Idle state, start and stray continuations *)

Lemma Idle_fields p :
  Idle p →
  BATCH_IN_PROGRESS p = None ∧ PROCESSED_PAGES p = None ∧ BATCH_RESULTS p = None.
Proof. intros <-. done. Qed.

Lemma processChunk_same_store batchSize env now w w' l ids :
  readPageIds (props w) = Ok ids →
  props w' = props w → log w' = log w →
  processChunk batchSize env now w' l = processChunk batchSize env now w l.
Proof.
  intros Hids Hp Hl.
  rewrite (processChunk_eq batchSize env now w l ids Hids).
  rewrite (processChunk_eq batchSize env now w' l ids) by (by rewrite Hp).
  unfold afterChunk, createTriggerForNextBatch, deleteTriggers, completeAndSummary,
    showAlert, emit, with_props. simpl. by rewrite Hp, Hl.
Qed.

(** C1, as stated, fails: called with no RunState stored, [processBatchExport]
    lists the source, stores a RunState, processes five pages and sets a
    trigger. *)
Lemma tick_when_idle_is_not_a_noop :
  let env := listingEnv (pagesNamed sixNames) alwaysSaves in
  let w' := final_world (processBatchExport BATCH_SIZE env "t" freshWorld) in
  deleteBatchProps (props freshWorld) = props freshWorld
  ∧ BATCH_IN_PROGRESS (props w') = Some "true"
  ∧ CURRENT_BATCH_INDEX (props w') = Some 1
  ∧ triggers w' = 1
  ∧ (map pageId <$> lastRecorded (log w')) = Some ["p01"; "p02"; "p03"; "p04"; "p05"].
Proof. vm_compute. done. Qed.

Lemma deleteBatchProps_idem p :
  deleteBatchProps (deleteBatchProps p) = deleteBatchProps p.
Proof. reflexivity. Qed.

Lemma idle_tick_with_listing batchSize env db folder now w :
  loadSettings env = inr (db, folder) →
  Idle (props w) →
  getNotionDatabasePages env db ≠ [] →
  let ids := map page_id (getNotionDatabasePages env db) in
  ∃ w',
    processBatchExport batchSize env now w = Returned w'
    ∧ (truthy_text (NOTION_API_KEY (props w)) = true →
       startBatchExport batchSize env now w = Returned w')
    ∧ lastRecorded (log w') =
      Some (map (processPage env now) (chunk batchSize 0 (length ids) ids))
    ∧ (batchSize < length ids →
       InRun batchSize untimed (outcome env) ids 1 (props w') ∧ triggers w' = 1)
    ∧ (length ids ≤ batchSize →
       Idle (props w') ∧ triggers w' = 0
       ∧ ∃ R, lastSummary (log w') = Some R ∧ map untimed R = map (outcome env) ids).
Proof.
  intros Hs Hidle Hp ids.
  destruct (Idle_fields _ Hidle) as (Hflag & Hproc & Hres).
  assert (Hr : readBatchResults (props w) = Ok []) by (unfold readBatchResults; by rewrite Hres).
  assert (Hf : inProgress (props w) = false) by (unfold inProgress; by rewrite Hflag).
  pose proof (processBatchExport_first batchSize env now w db folder [] Hs Hf Hr Hp) as Htick.
  simpl in Htick. fold ids in Htick.
  assert (Hsame : truthy_text (NOTION_API_KEY (props w)) = true →
                  startBatchExport batchSize env now w = processBatchExport batchSize env now w).
  { intros Hk.
    pose proof (startBatchExport_first batchSize env now w db folder [] Hs Hk Hr Hp) as Hstart.
    simpl in Hstart. fold ids in Hstart.
    rewrite Hstart, Htick. by eapply processChunk_same_store. }
  rewrite Htick in *.
  set (wi := showAlert _ _) in *. set (l := mkLocals 0 _ _ _ _) in *.
  destruct (chunk_step batchSize env untimed (outcome env) (fun _ => True) (untimed_view env)
              now wi l ids) as [Hmore Hfin]; try done.
  destruct (decide (batchSize < length ids)) as [Hlt|Hge].
  - destruct Hmore as (w' & Hw' & Hrun & Ht & Hrec); [simpl; lia|].
    exists w'. split; [done|]. split; [intros Hk; by rewrite Hsame|].
    split; [done|]. split; [done|]. intros Hle. lia.
  - destruct Hfin as (w' & R & Hw' & Hsum & HR & Hrec & Ht & Hprops); [simpl; lia|].
    exists w'. split; [done|]. split; [intros Hk; by rewrite Hsame|].
    split; [done|]. split; [intros Hlt; lia|]. intros _.
    split; [unfold Idle; rewrite Hprops; apply deleteBatchProps_idem|].
    split; [exact Ht|]. exists R. split; [exact Hsum|exact HR].
Qed.

(** C1 (amended): a call to tick() when no run is active never errors, but
    it is not a no-op.  With the configuration present and a non-empty
    listing it captures a snapshot, stores a fresh RunState and processes
    the first chunk, which is exactly what start() does when an API key is
    stored; it leaves a run in progress with one trigger set when more than
    one chunk is needed, and completes the run at once otherwise.  With the
    configuration missing or an empty listing it returns without starting a
    run: no RunState is stored and no trigger is added. *)
Theorem tick_when_idle_starts_a_run batchSize env now w :
  Idle (props w) →
  ∃ w',
    processBatchExport batchSize env now w = Returned w'
    ∧ (∀ notice, loadSettings env = inl notice →
         Idle (props w') ∧ triggers w' = triggers w)
    ∧ (∀ db folder,
         loadSettings env = inr (db, folder) →
         getNotionDatabasePages env db = [] →
         Idle (props w') ∧ triggers w' = triggers w)
    ∧ (∀ db folder,
         loadSettings env = inr (db, folder) →
         getNotionDatabasePages env db ≠ [] →
         let ids := map page_id (getNotionDatabasePages env db) in
         (truthy_text (NOTION_API_KEY (props w)) = true →
          startBatchExport batchSize env now w = Returned w')
         ∧ lastRecorded (log w') =
           Some (map (processPage env now) (chunk batchSize 0 (length ids) ids))
         ∧ (batchSize < length ids →
            InRun batchSize untimed (outcome env) ids 1 (props w') ∧ triggers w' = 1)
         ∧ (length ids ≤ batchSize →
            Idle (props w') ∧ triggers w' = 0
            ∧ ∃ R, lastSummary (log w') = Some R
                   ∧ map untimed R = map (outcome env) ids)).
Proof.
  intros Hidle.
  destruct (loadSettings env) as [notice|[db folder]] eqn:Hs.
  - eexists. split; [unfold processBatchExport; rewrite Hs; reflexivity|].
    split; [intros _ _; by split|]. split; intros ? ? [=].
  - destruct (getNotionDatabasePages env db) as [|page pages] eqn:Hp.
    + destruct (Idle_fields _ Hidle) as (Hflag & Hproc & Hres).
      eexists. split.
      { unfold processBatchExport, readBatchResults, inProgress, initialiseBatch.
        rewrite Hs, Hres, Hflag, Hp. reflexivity. }
      split; [intros ? [=]|]. split; [intros _ _ _ _; by split|].
      intros db' folder' [= <- <-] Hne. by rewrite Hp in Hne.
    + destruct (idle_tick_with_listing batchSize env db folder now w Hs Hidle)
        as (w' & Htick & Hrest); [by rewrite Hp|].
      exists w'. split; [done|]. split; [intros ? [=]|].
      split; [intros db' folder' [= <- <-] Hnil; by rewrite Hp in Hnil|].
      intros db' folder' [= <- <-] _. exact Hrest.
Qed.

Lemma tick_when_idle_starts_a_run_witness :
  let env := listingEnv (pagesNamed sixNames) alwaysSaves in
  ∃ w', processBatchExport BATCH_SIZE env "t" freshWorld = Returned w'
        ∧ startBatchExport BATCH_SIZE env "t" freshWorld = Returned w'
        ∧ InRun BATCH_SIZE untimed (outcome env) sixNames 1 (props w')
        ∧ triggers w' = 1.
Proof.
  intros env.
  destruct (tick_when_idle_starts_a_run BATCH_SIZE env "t" freshWorld) as (w' & H1 & _ & _ & H4).
  - reflexivity.
  - destruct (H4 "db-1" "folder-1") as (Hstart & _ & Hrun & _).
    + reflexivity.
    + vm_compute. discriminate.
    + destruct Hrun as [Hrun Ht]; [vm_compute; lia|].
      exists w'. split; [exact H1|]. split; [by apply Hstart|]. split; [exact Hrun|exact Ht].
Defined.

(** ** What start() stores *)

(** The listing is the first answer of the source, whether or not the
    answer says that more pages follow. *)
Lemma listing_is_first_answer env db answer :
  fetch_query env db = Ok answer →
  getNotionDatabasePages env db = results answer.
Proof. intros H. unfold getNotionDatabasePages. by rewrite H. Qed.




(** ** Failure containment in the page loop *)

Lemma processPage_status env now pageId0 :
  pageId (processPage env now pageId0) = pageId0
  ∧ (status (processPage env now pageId0) = Success
     ∨ status (processPage env now pageId0) = Fail).
Proof.
  unfold processPage.
  destruct (getNotionPageById env pageId0) as [page|]; simpl; [|by split; [|right]].
  destruct (convertBlocksToGoogleDocs _ _ _ _); simpl; split; auto.
Qed.

Lemma tick_returns batchSize env db folder now w ids R :
  loadSettings env = inr (db, folder) →
  inProgress (props w) = true →
  BATCH_PAGE_IDS (props w) = Some (Encoded ids) →
  readBatchResults (props w) = Ok R →
  ∃ w', processBatchExport batchSize env now w = Returned w'
        ∧ lastRecorded (log w') =
          Some (map (processPage env now)
                  (chunk batchSize (default 0 (CURRENT_BATCH_INDEX (props w)))
                     (default 0 (TOTAL_PAGES (props w))) ids)).
Proof.
  intros Hs Hf Hids Hr.
  rewrite (processBatchExport_running batchSize env now w db folder R Hs Hf Hr).
  rewrite (processChunk_eq batchSize env now w _ ids)
    by (unfold readPageIds; by rewrite Hids).
  simpl. destruct (Nat.leb _ _); eexists; (split; [reflexivity|]); simpl;
    unfold lastRecorded; rewrite !fold_left_app; reflexivity.
Qed.

(** Failure containment in general: an invocation on a run in progress
    never lets an exception of an item escape; it returns, with one result
    per item of the chunk, in order, each Success or Fail.  An item whose
    page request fails or whose conversion fails is recorded as Fail with a
    message. *)
Theorem item_failure_is_contained :
  (∀ batchSize env db folder now w ids R,
      loadSettings env = inr (db, folder) →
      inProgress (props w) = true →
      BATCH_PAGE_IDS (props w) = Some (Encoded ids) →
      readBatchResults (props w) = Ok R →
      ∃ w', processBatchExport batchSize env now w = Returned w'
            ∧ lastRecorded (log w') =
              Some (map (processPage env now)
                      (chunk batchSize (default 0 (CURRENT_BATCH_INDEX (props w)))
                         (default 0 (TOTAL_PAGES (props w))) ids)))
  ∧ (∀ env now id,
      pageId (processPage env now id) = id
      ∧ (status (processPage env now id) = Success ∨ status (processPage env now id) = Fail))
  ∧ (∀ env now id e,
      fetch_page env id = Raise e →
      status (processPage env now id) = Fail
      ∧ message (processPage env now id) = "ページ情報を取得できませんでした")
  ∧ (∀ env now id page e,
      fetch_page env id = Ok page →
      docs_write env (getPageBlocks env id) (getPageTitle page) None = Raise e →
      status (processPage env now id) = Fail
      ∧ message (processPage env now id) = "変換中にエラーが発生しました: " +:+ e).
Proof.
  split; [|split; [|split]].
  - apply tick_returns.
  - apply processPage_status.
  - intros env now id e He. unfold processPage, getNotionPageById. by rewrite He.
  - intros env now id page e Hp He.
    unfold processPage, getNotionPageById, convertBlocksToGoogleDocs. by rewrite Hp, He.
Qed.

Lemma item_failure_is_contained_witness :
  let env := listingEnv (pagesNamed tenNames) refusesFifth in
  let w := final_world (startBatchExport BATCH_SIZE env "t0" freshWorld) in
  ∃ w', processBatchExport BATCH_SIZE env "t1" w = Returned w'.
Proof.
  intros env w.
  destruct item_failure_is_contained as (H & _).
  destruct (H BATCH_SIZE env "db-1" "folder-1" "t1" w tenNames
              (map (processPage env "t0") ["p01"; "p02"; "p03"; "p04"; "p05"]))
    as (w' & Hw' & _).
  - reflexivity.
  - vm_compute. reflexivity.
  - vm_compute. reflexivity.
  - vm_compute. reflexivity.
  - by exists w'.
Defined.

(** C6: the code at the failing input.  In a snapshot of ten items the
    content of item 5 cannot be fetched: [getPageBlocks] swallows the error
    and answers no blocks, a document is written from nothing, and the item
    is recorded as Success, so the run completes with 10 Success and no
    Fail.  When instead the page request of item 5 fails, or its conversion
    fails, the item is recorded as Fail with a message and the run completes
    with 9 Success and 1 Fail, items 6 to 10 processed. *)
Theorem content_fetch_failure_is_reported_as_success :
  let pages := pagesNamed tenNames in
  let contentDown := contentUnavailableFor "p05" pages in
  let pageDown := pageUnavailableFor "p05" pages in
  let writeDown := listingEnv pages refusesFifth in
  let run env := lastSummary (log (final_world (exportRun BATCH_SIZE env ["t0"; "t1"] freshWorld))) in
  (fetch_blocks contentDown "p05" = Raise "HTTP 502"
   ∧ getPageBlocks contentDown "p05" = []
   ∧ processPage contentDown "t" "p05"
     = mkResult "p05" "p05" Success "saved" "t" (Some "doc-p05")
   ∧ (map (fun r => (pageId r, status r)) <$> run contentDown)
     = Some [("p01", Success); ("p02", Success); ("p03", Success); ("p04", Success);
             ("p05", Success); ("p06", Success); ("p07", Success); ("p08", Success);
             ("p09", Success); ("p10", Success)]
   ∧ (count Success <$> run contentDown) = Some 10
   ∧ (count Fail <$> run contentDown) = Some 0)
  ∧ (fetch_page pageDown "p05" = Raise "HTTP 502"
     ∧ processPage pageDown "t" "p05"
       = mkResult "p05" "Unknown (ID: p05)" Fail "ページ情報を取得できませんでした" "t" None
     ∧ (count Success <$> run pageDown) = Some 9
     ∧ (count Fail <$> run pageDown) = Some 1)
  ∧ (processPage writeDown "t" "p05"
       = mkResult "p05" "p05" Fail "変換中にエラーが発生しました: document too large" "t" None
     ∧ (map (fun r => (pageId r, status r)) <$> run writeDown)
       = Some [("p01", Success); ("p02", Success); ("p03", Success); ("p04", Success);
               ("p05", Fail); ("p06", Success); ("p07", Success); ("p08", Success);
               ("p09", Success); ("p10", Success)]
     ∧ (count Success <$> run writeDown) = Some 9
     ∧ (count Fail <$> run writeDown) = Some 1).
Proof. vm_compute. done. Qed.

(** ** Aborted attempts *)

(** C7: the code at the failing inputs.  A start() whose listing fails, and a
    continuation that finds the configuration missing, both end in
    [deleteAllProperties]: the API key and ItemState are gone, and the second
    case logs two notices.  [cancelBatchExport] on the same store keeps
    both. *)
Theorem aborted_attempt_deletes_all_properties :
  (let w' := final_world (startBatchExport BATCH_SIZE sourceDown "t" worldWithBaseline) in
   NOTION_API_KEY (props worldWithBaseline) = Some "secret"
   ∧ PROCESSED_PAGES_INFO (props worldWithBaseline) = Some (Encoded exampleState)
   ∧ props w' = deleteAllProperties
   ∧ NOTION_API_KEY (props w') = None
   ∧ PROCESSED_PAGES_INFO (props w') = None
   ∧ log w' = [Alert "データが見つかりません"])
  ∧ (let w' := final_world (processBatchExport BATCH_SIZE notConfigured "t" worldWithBaseline) in
     props w' = deleteAllProperties
     ∧ log w' = [Alert "設定シートを作成しました"; Alert "設定エラー"])
  ∧ props (cancelBatchExport worldWithBaseline) = props worldWithBaseline.
Proof. vm_compute. done. Qed.

(** ** Unparseable stored texts *)

(** C8: the code at the failing inputs.  With a run of twelve pages in
    progress after its first chunk, an unparseable [BATCH_RESULTS] or
    [BATCH_PAGE_IDS] makes the next invocation end in an uncaught
    [SyntaxError] with the store as it was, so every later continuation fails
    the same way, and so does a new start(); only the ItemState text of the
    differential export is read as empty when it is unparseable. *)
Theorem unparseable_run_state_is_fatal :
  let env := listingEnv (pagesNamed twelveNames) alwaysSaves in
  let w := final_world (startBatchExport BATCH_SIZE env "t0" freshWorld) in
  inProgress (props w) = true
  ∧ processBatchExport BATCH_SIZE env "t1" (corruptResults w)
    = Uncaught "SyntaxError" (corruptResults w)
  ∧ processBatchExport BATCH_SIZE env "t1" (corruptQueue w)
    = Uncaught "SyntaxError" (corruptQueue w)
  ∧ (∃ w', startBatchExport BATCH_SIZE env "t2" (corruptResults w) = Uncaught "SyntaxError" w')
  ∧ (map (fun r => (pageId r, status r)) <$>
       (exportDifferentialNotionPages (listingEnv exampleListing alwaysSaves) "t"
          (corruptItemState worldWithBaseline)).2)
    = Some [("A", Success); ("B", Success); ("C", Success)].
Proof.
  vm_compute. repeat split; try done. eexists. reflexivity.
Qed.

(** ** start() during a run *)

(** C10: the code at the failing input.  A run of twelve pages has handled
    its first chunk (cursor 1, five pages processed).  start() is called
    again: the new run starts at index 0 over a fresh snapshot with empty
    results, but its processed count continues from the old one, so after
    the first chunk of the new run the store says ten pages processed while
    five results were accumulated.  Started from an idle store the same
    invocation stores five. *)
Theorem restart_keeps_processed_count :
  let env := listingEnv (pagesNamed twelveNames) alwaysSaves in
  let w := final_world (startBatchExport BATCH_SIZE env "t0" freshWorld) in
  let w' := final_world (startBatchExport BATCH_SIZE env "t9" w) in
  (inProgress (props w) = true
   ∧ CURRENT_BATCH_INDEX (props w) = Some 1
   ∧ PROCESSED_PAGES (props w) = Some 5
   ∧ triggers w = 1)
  ∧ (CURRENT_BATCH_INDEX (props w') = Some 1
     ∧ BATCH_STARTED_AT (props w') = Some "t9"
     ∧ (match BATCH_RESULTS (props w') with
        | Some (Encoded rs) => map pageId rs
        | _ => []
        end) = ["p01"; "p02"; "p03"; "p04"; "p05"]
     ∧ triggers w' = 1
     ∧ PROCESSED_PAGES (props w') = Some 10).
Proof. vm_compute. done. Qed.

(** * Further properties *)

(** ** The result sheet as a bounded log *)

Lemma recordResultsToSheet_spec now results data :
  length results ≤ 999 →
  recordResultsToSheet now results data =
  Some (drop (length data + length results - 999) data ++ map (sheetRow now) results).
Proof.
  intros Hn. unfold recordResultsToSheet, deleteRows, MAX_ROWS.
  rewrite length_map.
  destruct ((1000 <? 1 + Z.of_nat (length data) + Z.of_nat (length results))%Z
            && (1 <? 1 + Z.of_nat (length data))%Z) eqn:Hover.
  - apply andb_true_iff in Hover as [H1 H2].
    apply Z.ltb_lt in H1. apply Z.ltb_lt in H2.
    replace (0 <? _)%Z with true by (symmetry; apply Z.ltb_lt; lia).
    replace (_ <=? Z.of_nat (length data))%Z with true by (symmetry; apply Z.leb_le; lia).
    simpl. do 2 f_equal. f_equal. lia.
  - simpl. do 2 f_equal.
    replace (length data + length results - 999) with 0; [done|].
    apply andb_false_iff in Hover as [H|H]; apply Z.ltb_ge in H.
    + lia.
    + assert (length data = 0) as -> by lia. lia.
Qed.

(** X1: a recording of at most 999 results always succeeds; it drops whole
    rows from the top of the sheet, the oldest first and only as many as
    needed, and appends one row per result in order, so that at most 999
    data rows (1000 with the header) remain. *)
Theorem result_sheet_evicts_oldest_rows now results data :
  length results ≤ 999 →
  ∃ data',
    recordResultsToSheet now results data = Some data'
    ∧ data' = drop (length data + length results - 999) data ++ map (sheetRow now) results
    ∧ length data' = Nat.min (length data + length results) 999
    ∧ map row_pageId (drop (length data' - length results) data') = map pageId results.
Proof.
  intros Hn. eexists. split; [by apply recordResultsToSheet_spec|].
  split; [done|].
  assert (Hlen : length (drop (length data + length results - 999) data
                           ++ map (sheetRow now) results)
                 = Nat.min (length data + length results) 999).
  { rewrite length_app, length_drop, length_map. lia. }
  split; [exact Hlen|].
  rewrite Hlen.
  rewrite drop_app_length'.
  - rewrite map_map. done.
  - rewrite length_drop. lia.
Qed.

Lemma result_sheet_evicts_oldest_rows_witness :
  ∃ data', recordResultsToSheet "t" [mkResult "A" "a" Success "saved" "t" (Some "doc-A")] [] = Some data'.
Proof.
  destruct (result_sheet_evicts_oldest_rows "t"
              [mkResult "A" "a" Success "saved" "t" (Some "doc-A")] [])
    as (data' & H & _).
  - simpl. lia.
  - by exists data'.
Defined.

Lemma drop_app_short {A} (k : nat) (l1 l2 : list A) :
  k ≤ length l1 → drop k l1 ++ l2 = drop k (l1 ++ l2).
Proof. intros Hk. by rewrite drop_app_le. Qed.

(** X2: the sheet is a ring buffer.  Starting from a sheet within the bound,
    after any sequence of recordings of at most 999 results each, the sheet
    holds the most recent 999 of all rows ever written, in the order they
    were written. *)
Theorem result_sheet_keeps_latest_rows now batches : ∀ data,
  length data ≤ 999 →
  Forall (fun results => length results ≤ 999) batches →
  let all := data ++ map (sheetRow now) (concat batches) in
  recordAll now batches data = Some (drop (length all - 999) all).
Proof.
  induction batches as [|results later IH]; intros data Hd Hb all; simpl.
  - subst all. simpl. rewrite app_nil_r.
    replace (length data - 999) with 0 by lia. done.
  - apply Forall_cons in Hb as [Hn Hlater].
    rewrite (recordResultsToSheet_spec now results data Hn). simpl.
    set (data1 := drop _ data ++ _).
    assert (Hlen1 : length data1 = Nat.min (length data + length results) 999).
    { subst data1. rewrite length_app, length_drop, length_map. lia. }
    rewrite (IH data1) by (done || lia).
    f_equal. subst all. simpl. rewrite map_app, app_assoc.
    assert (Hd1 : data1 = drop (length data + length results - 999)
                            (data ++ map (sheetRow now) results)).
    { subst data1. apply drop_app_short. lia. }
    set (later_rows := map (sheetRow now) (concat later)) in *.
    rewrite !length_app, Hlen1.
    rewrite Hd1, drop_app_short by (rewrite length_app, length_map; lia).
    rewrite drop_drop. f_equal.
    rewrite !length_map. lia.
Qed.

Lemma result_sheet_keeps_latest_rows_witness :
  recordAll "t" [[mkResult "A" "a" Success "saved" "t" (Some "doc-A")];
                 [mkResult "B" "b" Fail "failed" "t" None]] []
  = Some [sheetRow "t" (mkResult "A" "a" Success "saved" "t" (Some "doc-A"));
          sheetRow "t" (mkResult "B" "b" Fail "failed" "t" None)].
Proof.
  rewrite (result_sheet_keeps_latest_rows "t" _ []).
  - reflexivity.
  - simpl. lia.
  - repeat constructor; simpl; lia.
Defined.

(** ** Progress and completion of a batch run *)

Lemma processed_ids env now ids : map pageId (map (processPage env now) ids) = ids.
Proof.
  rewrite map_map. rewrite <- (map_id ids) at 2. apply map_ext.
  intros id. apply processPage_status.
Qed.

Lemma processed_settled env now ids : Forall settled (map (processPage env now) ids).
Proof.
  apply Forall_forall. intros r (id & <- & _)%list_elem_of_In%in_map_iff.
  apply processPage_status.
Qed.

Lemma chunk_length batchSize k (ids : list string) :
  (k + 1) * batchSize ≤ length ids →
  length (chunk batchSize k (length ids) ids) = batchSize.
Proof.
  intros Hk. unfold chunk, slice. rewrite length_take, length_drop. lia.
Qed.

Lemma counted_chunk batchSize env now w l ids :
  readPageIds (props w) = Ok ids →
  BATCH_IN_PROGRESS (props w) = Some "true" →
  TOTAL_PAGES (props w) = Some (length ids) →
  totalPages l = length ids →
  processedPages l = currentBatchIndex l * batchSize →
  map pageId (batchResults l) = take (currentBatchIndex l * batchSize) ids →
  Forall settled (batchResults l) →
  let k := currentBatchIndex l in
  ((k + 1) * batchSize < length ids →
     ∃ w', processChunk batchSize env now w l = Returned w'
           ∧ Counted batchSize ids (S k) (props w')
           ∧ triggers w' = 1
           ∧ otherProps (props w') = otherProps (props w))
  ∧ (length ids ≤ (k + 1) * batchSize →
     ∃ w' R, processChunk batchSize env now w l = Returned w'
           ∧ props w' = deleteBatchProps (props w)
           ∧ triggers w' = 0
           ∧ lastSummary (log w') = Some R
           ∧ map pageId R = ids
           ∧ Forall settled R).
Proof.
  intros Hids Hflag Htot Hl Hc HR Hst k.
  pose proof (processChunk_eq batchSize env now w l ids Hids) as Heq.
  simpl in Heq. rewrite Hl in Heq. fold k in Heq.
  set (new := map (processPage env now) (chunk batchSize k (length ids) ids)) in *.
  assert (Hall : map pageId (batchResults l ++ new) =
                 take (Nat.min (k * batchSize + batchSize) (length ids)) ids).
  { rewrite map_app, HR. subst new. rewrite processed_ids. fold k. apply chunk_take. }
  assert (Hset : Forall settled (batchResults l ++ new)).
  { apply Forall_app. split; [done|apply processed_settled]. }
  assert (Hpid : BATCH_PAGE_IDS (props w) = Some (Encoded ids)).
  { unfold readPageIds in Hids. destruct (BATCH_PAGE_IDS (props w)) as [[raw|x]|]; congruence. }
  split; intros Hk.
  - rewrite Heq. replace (Nat.leb _ _) with false by (symmetry; apply Nat.leb_gt; lia).
    eexists. split; [reflexivity|]. split; [|split; [done|reflexivity]].
    unfold Counted. simpl. repeat split; try done.
    + rewrite Hc. fold k. subst new. rewrite length_map, chunk_length by lia.
      f_equal. lia.
    + eexists. split; [reflexivity|]. split; [|done].
      rewrite Hall. f_equal. lia.
  - rewrite Heq. replace (Nat.leb _ _) with true by (symmetry; apply Nat.leb_le; lia).
    eexists _, _. split; [reflexivity|].
    split; [simpl; by destruct (props w)|]. split; [done|]. split.
    + simpl. unfold lastSummary. rewrite !fold_left_app. simpl. reflexivity.
    + split; [|done]. rewrite Hall. by rewrite take_ge by lia.
Qed.

Lemma counted_tick batchSize env db folder now w ids k :
  loadSettings env = inr (db, folder) →
  Counted batchSize ids k (props w) →
  ((k + 1) * batchSize < length ids →
     ∃ w', processBatchExport batchSize env now w = Returned w'
           ∧ Counted batchSize ids (S k) (props w')
           ∧ triggers w' = 1
           ∧ otherProps (props w') = otherProps (props w))
  ∧ (length ids ≤ (k + 1) * batchSize →
     ∃ w' R, processBatchExport batchSize env now w = Returned w'
           ∧ props w' = deleteBatchProps (props w)
           ∧ triggers w' = 0
           ∧ lastSummary (log w') = Some R
           ∧ map pageId R = ids
           ∧ Forall settled R).
Proof.
  intros Hs (Hflag & Hidx & Htot & Hids & Hcnt & R & HR & Hout & Hst).
  assert (Hrun : inProgress (props w) = true) by (unfold inProgress; by rewrite Hflag).
  assert (Hread : readBatchResults (props w) = Ok R) by (unfold readBatchResults; by rewrite HR).
  rewrite (processBatchExport_running batchSize env now w db folder R Hs Hrun Hread).
  rewrite Hidx, Htot, Hcnt. simpl.
  assert (Hpid : readPageIds (props w) = Ok ids) by (unfold readPageIds; by rewrite Hids).
  set (l := mkLocals k (length ids) (k * batchSize) _ R).
  exact (counted_chunk batchSize env now w l ids Hpid Hflag Htot eq_refl eq_refl Hout Hst).
Qed.

Lemma counted_start batchSize env db folder now w :
  loadSettings env = inr (db, folder) →
  truthy_text (NOTION_API_KEY (props w)) = true →
  Idle (props w) →
  getNotionDatabasePages env db ≠ [] →
  let ids := map page_id (getNotionDatabasePages env db) in
  (1 * batchSize < length ids →
     ∃ w', startBatchExport batchSize env now w = Returned w'
           ∧ Counted batchSize ids 1 (props w')
           ∧ triggers w' = 1
           ∧ otherProps (props w') = otherProps (props w))
  ∧ (length ids ≤ 1 * batchSize →
     ∃ w' R, startBatchExport batchSize env now w = Returned w'
           ∧ props w' = props w
           ∧ triggers w' = 0
           ∧ lastSummary (log w') = Some R
           ∧ map pageId R = ids
           ∧ Forall settled R).
Proof.
  intros Hs Hk Hidle Hp ids.
  destruct (Idle_fields _ Hidle) as (Hflag & Hproc & Hres).
  assert (Hr : readBatchResults (props w) = Ok []) by (unfold readBatchResults; by rewrite Hres).
  rewrite (startBatchExport_first batchSize env now w db folder [] Hs Hk Hr Hp).
  fold ids. rewrite Hproc. simpl.
  set (wi := showAlert _ _). set (l := mkLocals 0 _ _ _ _).
  destruct (counted_chunk batchSize env now wi l ids) as [Hmore Hlast]; try done.
  split; intros Hn.
  - destruct (Hmore Hn) as (w' & H1 & H2 & H3 & H4). exists w'.
    split; [done|]. split; [done|]. split; [done|]. by rewrite H4.
  - destruct (Hlast Hn) as (w' & R & H1 & H2 & H3). exists w', R.
    split; [done|]. split; [|done].
    rewrite H2. unfold Idle in Hidle. rewrite <- Hidle. reflexivity.
Qed.

Lemma counted_progress batchSize env db folder ids :
  loadSettings env = inr (db, folder) →
  ∀ clock w j,
    Counted batchSize ids j (props w) →
    triggers w = 1 →
    (j + length clock) * batchSize < length ids →
    ∃ w', continuations batchSize env clock w = Returned w'
          ∧ Counted batchSize ids (j + length clock) (props w')
          ∧ triggers w' = 1
          ∧ otherProps (props w') = otherProps (props w).
Proof.
  intros Hs. induction clock as [|now later IH]; intros w j Hrun Htr Hlt; simpl.
  - exists w. rewrite Nat.add_0_r. done.
  - rewrite Htr. simpl in Hlt.
    destruct (counted_tick batchSize env db folder now w ids j Hs Hrun) as [Hmore _].
    destruct Hmore as (w1 & -> & Hrun1 & Ht1 & Ho1); [nia|].
    destruct (IH w1 (S j) Hrun1 Ht1) as (w' & Hc & Hrun' & Ht' & Ho'); [simpl; nia|].
    exists w'. split; [done|]. split; [|split; [done|congruence]].
    by replace (j + S (length later)) with (S j + length later) by lia.
Qed.

Lemma counted_finish batchSize env db folder ids :
  loadSettings env = inr (db, folder) →
  ∀ clock w j,
    Counted batchSize ids j (props w) →
    triggers w = 1 →
    j * batchSize < length ids →
    length ids ≤ (j + length clock) * batchSize →
    ∃ w' R, continuations batchSize env clock w = Returned w'
            ∧ Idle (props w')
            ∧ otherProps (props w') = otherProps (props w)
            ∧ triggers w' = 0
            ∧ lastSummary (log w') = Some R
            ∧ map pageId R = ids
            ∧ Forall settled R.
Proof.
  intros Hs. induction clock as [|now later IH]; intros w j Hrun Htr Hlt Hge; simpl.
  - simpl in Hge. lia.
  - rewrite Htr.
    destruct (counted_tick batchSize env db folder now w ids j Hs Hrun) as [Hmore Hlast].
    destruct (decide (length ids ≤ (j + 1) * batchSize)) as [Hend|Hnot].
    + destruct (Hlast Hend) as (w1 & R & -> & Hp1 & Ht1 & Hrest).
      exists w1, R. split; [destruct later; simpl; [done|by rewrite Ht1]|].
      split; [unfold Idle; by rewrite Hp1|]. split; [by rewrite Hp1|done].
    + destruct Hmore as (w1 & -> & Hrun1 & Ht1 & Ho1); [lia|].
      destruct (IH w1 (S j) Hrun1 Ht1) as (w' & R & Hc & Hi & Ho & Hrest); [lia| |].
      { simpl in Hge. by replace (S j + length later) with (j + S (length later)) by lia. }
      exists w', R. split; [done|]. split; [done|]. split; [congruence|done].
Qed.

Lemma count_settled R : Forall settled R → count Success R + count Fail R = length R.
Proof.
  unfold count. induction 1 as [|r R [Hr|Hr] _ IH]; simpl; [done| |]; rewrite Hr; simpl; lia.
Qed.

(** X3: chunk boundaries.  From a store without RunState, as long as the
    queue is not exhausted, after [m] invocations (start and [m-1]
    continuations) the stored cursor is [m], the stored page count is
    [m * batchSize], the stored results are those of the first
    [m * batchSize] listed ids in order, exactly one trigger is set, and the
    API key and the baseline of the differential export are as before. *)
Theorem run_in_progress_after_m_invocations batchSize env db folder w0 now0 ticks :
  loadSettings env = inr (db, folder) →
  truthy_text (NOTION_API_KEY (props w0)) = true →
  Idle (props w0) →
  let ids := map page_id (getNotionDatabasePages env db) in
  let m := S (length ticks) in
  m * batchSize < length ids →
  ∃ w R,
    exportRun batchSize env (now0 :: ticks) w0 = Returned w
    ∧ inProgress (props w) = true
    ∧ CURRENT_BATCH_INDEX (props w) = Some m
    ∧ PROCESSED_PAGES (props w) = Some (m * batchSize)
    ∧ BATCH_RESULTS (props w) = Some (Encoded R)
    ∧ map pageId R = take (m * batchSize) ids
    ∧ triggers w = 1
    ∧ otherProps (props w) = otherProps (props w0).
Proof.
  intros Hs Hk Hidle ids m Hlt.
  assert (Hp : getNotionDatabasePages env db ≠ []).
  { intros E. subst ids. rewrite E in Hlt. simpl in Hlt. lia. }
  destruct (counted_start batchSize env db folder now0 w0 Hs Hk Hidle Hp) as [Hmore _].
  fold ids in Hmore.
  destruct Hmore as (w1 & Hstart & Hrun1 & Ht1 & Ho1); [subst m; nia|].
  destruct (counted_progress batchSize env db folder ids Hs ticks w1 1 Hrun1 Ht1)
    as (w & Hc & (Hflag & Hidx & _ & _ & Hcnt & R & HR & Hout & _) & Ht & Ho); [done|].
  exists w, R. simpl. rewrite Hstart.
  split; [done|]. split; [unfold inProgress; by rewrite Hflag|].
  repeat split; try done. congruence.
Qed.

Lemma run_in_progress_after_m_invocations_witness :
  let env := listingEnv (pagesNamed twelveNames) alwaysSaves in
  ∃ w, exportRun BATCH_SIZE env ["t0"; "t1"] freshWorld = Returned w
       ∧ PROCESSED_PAGES (props w) = Some 10.
Proof.
  intros env.
  destruct (run_in_progress_after_m_invocations BATCH_SIZE env "db-1" "folder-1"
              freshWorld "t0" ["t1"]) as (w & R & H & _ & _ & Hc & _).
  - reflexivity.
  - reflexivity.
  - reflexivity.
  - vm_compute. lia.
  - exists w. split; [exact H|exact Hc].
Defined.

(** X4: completion.  From a store without RunState and with a positive
    chunk size, once the invocations cover the queue the run has ended: no
    RunState and no trigger is left, the API key and the baseline of the
    differential export are as before, and the summary lists one result
    per listed page, in listing order, each Success or Fail, so that the
    success and failure counts add up to the number of pages. *)
Theorem run_completes_and_cleans_up batchSize env db folder w0 now0 ticks :
  0 < batchSize →
  loadSettings env = inr (db, folder) →
  truthy_text (NOTION_API_KEY (props w0)) = true →
  Idle (props w0) →
  getNotionDatabasePages env db ≠ [] →
  let ids := map page_id (getNotionDatabasePages env db) in
  length ids ≤ S (length ticks) * batchSize →
  ∃ w R,
    exportRun batchSize env (now0 :: ticks) w0 = Returned w
    ∧ props w = props w0
    ∧ triggers w = 0
    ∧ lastSummary (log w) = Some R
    ∧ map pageId R = ids
    ∧ count Success R + count Fail R = length ids.
Proof.
  intros Hpos Hs Hk Hidle Hp ids Hge.
  assert (Hsame : ∀ p, Idle p → otherProps p = otherProps (props w0) → p = props w0).
  { intros p Hi Ho. unfold Idle in Hi, Hidle. rewrite <- Hi, <- Hidle.
    unfold otherProps in Ho. clear Hi Hidle Hk.
    destruct p, (props w0). injection Ho as -> -> ->. reflexivity. }
  assert (Hcount : ∀ R, map pageId R = ids → Forall settled R →
            count Success R + count Fail R = length ids).
  { intros R HR Hst. rewrite (count_settled R Hst), <- HR. by rewrite length_map. }
  destruct (counted_start batchSize env db folder now0 w0 Hs Hk Hidle Hp) as [Hmore Hone].
  fold ids in Hmore, Hone.
  destruct (decide (length ids ≤ 1 * batchSize)) as [H1|H1].
  - destruct (Hone H1) as (w & R & Hstart & Hprops & Ht & Hsum & Hids & Hst).
    exists w, R. simpl. rewrite Hstart.
    split; [destruct ticks; simpl; [done|by rewrite Ht]|].
    repeat split; try done. by apply Hcount.
  - destruct Hmore as (w1 & Hstart & Hrun1 & Ht1 & Ho1); [lia|].
    destruct (counted_finish batchSize env db folder ids Hs ticks w1 1 Hrun1 Ht1)
      as (w & R & Hc & Hi & Ho & Ht & Hsum & Hids & Hst); [lia|done|].
    exists w, R. simpl. rewrite Hstart.
    split; [done|]. split; [apply Hsame; [done|congruence]|].
    repeat split; try done. by apply Hcount.
Qed.

Lemma run_completes_and_cleans_up_witness :
  let env := listingEnv (pagesNamed twelveNames) alwaysSaves in
  ∃ w, exportRun BATCH_SIZE env ["t0"; "t1"; "t2"] freshWorld = Returned w
       ∧ props w = props freshWorld ∧ triggers w = 0.
Proof.
  intros env.
  destruct (run_completes_and_cleans_up BATCH_SIZE env "db-1" "folder-1"
              freshWorld "t0" ["t1"; "t2"]) as (w & R & H & Hp & Ht & _).
  - unfold BATCH_SIZE. lia.
  - reflexivity.
  - reflexivity.
  - reflexivity.
  - vm_compute. discriminate.
  - vm_compute. lia.
  - exists w. split; [exact H|]. split; [exact Hp|exact Ht].
Defined.

(** ** Cancelling, and triggers against run state *)

Lemma deleteBatchProps_Idle p : Idle (deleteBatchProps p).
Proof. reflexivity. Qed.

Lemma cancel_idle w :
  Idle (props (cancelBatchExport w))
  ∧ triggers (cancelBatchExport w) = 0
  ∧ otherProps (props (cancelBatchExport w)) = otherProps (props w).
Proof. unfold Idle. by destruct w as [[] ? ?]. Qed.

(** X5: cancel, then start.  Whatever the cancelled run left in the store
    (a stale page count, unparseable results or queue), [cancelBatchExport]
    leaves no RunState and no trigger and keeps the API key and the
    baseline; a start() that follows returns, counts pages from zero and
    either leaves a run in progress with one trigger or has completed. *)
Theorem start_after_cancel_is_clean batchSize env db folder now w :
  loadSettings env = inr (db, folder) →
  truthy_text (NOTION_API_KEY (props w)) = true →
  getNotionDatabasePages env db ≠ [] →
  let ids := map page_id (getNotionDatabasePages env db) in
  let wc := cancelBatchExport w in
  Idle (props wc) ∧ triggers wc = 0 ∧ otherProps (props wc) = otherProps (props w)
  ∧ ∃ w', startBatchExport batchSize env now wc = Returned w'
          ∧ otherProps (props w') = otherProps (props w)
          ∧ ((batchSize < length ids
              ∧ Counted batchSize ids 1 (props w') ∧ triggers w' = 1)
             ∨ (length ids ≤ batchSize ∧ Idle (props w') ∧ triggers w' = 0)).
Proof.
  intros Hs Hk Hp ids wc.
  destruct (cancel_idle w) as (Hidle & Ht & Ho). fold wc in Hidle, Ht, Ho.
  split; [done|]. split; [done|]. split; [done|].
  assert (Hkc : truthy_text (NOTION_API_KEY (props wc)) = true).
  { exact Hk. }
  destruct (counted_start batchSize env db folder now wc Hs Hkc Hidle Hp) as [Hmore Hone].
  fold ids in Hmore, Hone.
  destruct (decide (batchSize < length ids)) as [Hlt|Hge].
  - destruct Hmore as (w' & H1 & H2 & H3 & H4); [lia|].
    exists w'. split; [done|]. split; [congruence|]. left. done.
  - destruct Hone as (w' & R & H1 & H2 & H3 & _); [lia|].
    exists w'. split; [done|]. split; [by rewrite H2|]. right.
    split; [lia|]. split; [by rewrite H2|done].
Qed.

Lemma start_after_cancel_is_clean_witness :
  let env := listingEnv (pagesNamed twelveNames) alwaysSaves in
  let w := corruptResults (final_world (startBatchExport BATCH_SIZE env "t0" freshWorld)) in
  ∃ w', startBatchExport BATCH_SIZE env "t1" (cancelBatchExport w) = Returned w'.
Proof.
  intros env w.
  destruct (start_after_cancel_is_clean BATCH_SIZE env "db-1" "folder-1" "t1" w)
    as (_ & _ & _ & w' & H & _).
  - reflexivity.
  - reflexivity.
  - vm_compute. discriminate.
  - by exists w'.
Defined.

Lemma tick_keeps_trigger_matching batchSize env db folder now w ids k :
  loadSettings env = inr (db, folder) →
  InRun batchSize untimed (outcome env) ids k (props w) →
  ∃ w', processBatchExport batchSize env now w = Returned w'
        ∧ ((InRun batchSize untimed (outcome env) ids (S k) (props w') ∧ triggers w' = 1)
           ∨ (Idle (props w') ∧ triggers w' = 0)).
Proof.
  intros Hs Hrun. pose proof Hrun as [Hflag Hidx Htot Hids (R & HR & Hout)].
  assert (Hip : inProgress (props w) = true) by (unfold inProgress; by rewrite Hflag).
  assert (Hread : readBatchResults (props w) = Ok R) by (unfold readBatchResults; by rewrite HR).
  rewrite (processBatchExport_running batchSize env now w db folder R Hs Hip Hread).
  rewrite Hidx, Htot. simpl.
  set (l := mkLocals k (length ids) _ _ R).
  assert (Hpid : readPageIds (props w) = Ok ids) by (unfold readPageIds; by rewrite Hids).
  destruct (chunk_step batchSize env untimed (outcome env) (fun _ => True) (untimed_view env)
              now w l ids I Hpid Hflag Htot eq_refl Hout) as [Hmore Hlast].
  destruct (decide (length ids ≤ (k + 1) * batchSize)) as [Hend|Hnot].
  - destruct (Hlast Hend) as (w' & R' & H1 & _ & _ & _ & H5 & H6).
    exists w'. split; [done|]. right. split; [rewrite H6; apply deleteBatchProps_Idle|exact H5].
  - destruct Hmore as (w' & H1 & H2 & H3 & _); [simpl; lia|].
    exists w'. split; [done|]. by left.
Qed.

Lemma continuations_keep_trigger_matching batchSize env db folder ids :
  loadSettings env = inr (db, folder) →
  ∀ clock w,
    (∃ k, InRun batchSize untimed (outcome env) ids k (props w) ∧ triggers w = 1)
    ∨ (Idle (props w) ∧ triggers w = 0) →
    ∃ w', continuations batchSize env clock w = Returned w' ∧ TriggerMatchesRun w'.
Proof.
  intros Hs. induction clock as [|now later IH]; intros w Hw; simpl.
  - exists w. split; [done|]. destruct Hw as [(k & Hrun & Ht)|Hw]; [left|by right].
    split; [|done]. unfold inProgress. by rewrite (run_flag _ _ _ _ _ _ Hrun).
  - destruct Hw as [(k & Hrun & Ht)|[Hi Ht]]; rewrite Ht.
    + destruct (tick_keeps_trigger_matching batchSize env db folder now w ids k Hs Hrun)
        as (w1 & -> & Hw1).
      apply IH. destruct Hw1 as [[H1 H2]|H1]; [left; by exists (S k)|by right].
    + exists w. split; [done|]. by right.
Qed.

(** X6: at most one trigger, and only during a run.  Whatever the store and
    the triggers were before (provided stale results, if any, parse),
    whatever the listing returns and for every chunk size, after start()
    and any number of continuations either a run is in progress and exactly
    one trigger is set, or no RunState is stored and no trigger is set. *)
Theorem trigger_set_exactly_while_run_in_progress batchSize env db folder w0 stale now0 ticks :
  loadSettings env = inr (db, folder) →
  truthy_text (NOTION_API_KEY (props w0)) = true →
  readBatchResults (props w0) = Ok stale →
  ∃ w, exportRun batchSize env (now0 :: ticks) w0 = Returned w
       ∧ TriggerMatchesRun w.
Proof.
  intros Hs Hk Hr. simpl.
  set (ids := map page_id (getNotionDatabasePages env db)).
  destruct (getNotionDatabasePages env db) as [|page pages] eqn:Hp.
  - assert (Hstart : startBatchExport batchSize env now0 w0 =
              Returned (with_props (fun _ => deleteAllProperties)
                          (showAlert "データが見つかりません"
                             (deleteTriggers (with_props (set_BATCH_IN_PROGRESS None) w0))))).
    { unfold startBatchExport, processBatchExport. rewrite Hk, Hs. simpl.
      replace (readBatchResults _) with (Ok stale).
      unfold initialiseBatch. rewrite Hp. done. }
    rewrite Hstart.
    apply (continuations_keep_trigger_matching batchSize env db folder ids Hs).
    right. done.
  - assert (Hne : getNotionDatabasePages env db ≠ []) by (by rewrite Hp).
    rewrite (startBatchExport_first batchSize env now0 w0 db folder stale Hs Hk Hr Hne).
    rewrite Hp. fold ids.
    set (wi := showAlert _ _). set (l := mkLocals 0 _ _ _ _).
    destruct (chunk_step batchSize env untimed (outcome env) (fun _ => True) (untimed_view env)
                now0 wi l ids) as [Hmore Hlast]; try done.
    destruct (decide (length ids ≤ (0 + 1) * batchSize)) as [Hend|Hnot].
    + destruct (Hlast Hend) as (w' & R' & -> & _ & _ & _ & H5 & H6).
      apply (continuations_keep_trigger_matching batchSize env db folder ids Hs).
      right. split; [rewrite H6; apply deleteBatchProps_Idle|exact H5].
    + destruct Hmore as (w' & -> & H2 & H3 & _);
        [change (currentBatchIndex l) with 0; lia|].
      apply (continuations_keep_trigger_matching batchSize env db folder ids Hs).
      left. by exists 1.
Qed.

Lemma trigger_set_exactly_while_run_in_progress_witness :
  let env := listingEnv (pagesNamed twelveNames) alwaysSaves in
  let w0 := mkWorld keyOnly 7 [] in
  ∃ w, exportRun BATCH_SIZE env ["t0"; "t1"] w0 = Returned w ∧ TriggerMatchesRun w.
Proof.
  intros env w0.
  apply (trigger_set_exactly_while_run_in_progress BATCH_SIZE env "db-1" "folder-1" w0 []);
    reflexivity.
Defined.

(** ** The batch run against the one-shot export *)

Lemma exportPage_processPage env now now' page page' :
  fetch_page env (page_id page) = Ok page' →
  getPageTitle page' = getPageTitle page →
  untimed (processPage env now' (page_id page)) = untimed (exportPage env now page).
Proof.
  intros Hf Ht. unfold processPage, exportPage, getNotionPageById.
  rewrite Hf, Ht. by destruct (convertBlocksToGoogleDocs _ _ _ _).
Qed.

(** X7: the batch run refines the one-shot export.  When the request for
    each listed page answers a page with the same title as the listing shows,
    a batch run driven to completion, whatever its positive chunk size,
    reports the same results in the same order as
    [exportNotionToGoogleDrive] on the same source, up to the clock reading
    each result carries; the one-shot export leaves the store untouched. *)
Theorem batch_run_matches_one_shot_export batchSize env db folder w0 now0 ticks :
  0 < batchSize →
  loadSettings env = inr (db, folder) →
  truthy_text (NOTION_API_KEY (props w0)) = true →
  Idle (props w0) →
  getNotionDatabasePages env db ≠ [] →
  let pages := getNotionDatabasePages env db in
  (∀ page, In page pages →
     ∃ page', fetch_page env (page_id page) = Ok page'
              ∧ getPageTitle page' = getPageTitle page) →
  length pages ≤ S (length ticks) * batchSize →
  ∃ w R w1 F,
    exportRun batchSize env (now0 :: ticks) w0 = Returned w
    ∧ lastSummary (log w) = Some R
    ∧ exportNotionToGoogleDrive env now0 w0 = (w1, Some F)
    ∧ props w1 = props w0
    ∧ map untimed R = map untimed F.
Proof.
  intros Hpos Hs Hk Hidle Hp pages Hsame Hge.
  destruct (Idle_fields _ Hidle) as (_ & _ & Hres).
  assert (Hr : readBatchResults (props w0) = Ok []) by (unfold readBatchResults; by rewrite Hres).
  assert (Hany : ∀ clock : list string, Forall (fun _ => True) clock)
    by (intros clock; by apply Forall_forall).
  assert (HF : exportNotionToGoogleDrive env now0 w0 =
               (showAlert "エクスポート完了"
                  (recordResultsToSpreadsheet (map (exportPage env now0) pages)
                     (showAlert "処理を開始します" w0)),
                Some (map (exportPage env now0) pages))).
  { unfold exportNotionToGoogleDrive. rewrite Hs, Hk. simpl. subst pages.
    destruct (getNotionDatabasePages env db); [done|reflexivity]. }
  assert (Hout : map (outcome env) (map page_id pages) = map untimed (map (exportPage env now0) pages)).
  { rewrite !map_map. apply map_ext_in. intros page Hin.
    destruct (Hsame page Hin) as (page' & Hf & Ht).
    unfold outcome. by apply exportPage_processPage with page'. }
  destruct (started_run batchSize env untimed (outcome env) (fun _ => True) (untimed_view env)
              now0 w0 db folder [] I Hs Hk Hr Hp) as [Hmore Hone].
  fold pages in Hmore, Hone. rewrite length_map in Hmore, Hone.
  destruct (decide (length pages ≤ batchSize)) as [H1|H1].
  - destruct (Hone H1) as (w & R & Hstart & Hsum & HR & Ht & _).
    exists w, R. eexists _, _. simpl. rewrite Hstart.
    split; [destruct ticks; simpl; [done|by rewrite Ht]|].
    split; [done|]. split; [exact HF|]. split; [done|]. by rewrite HR.
  - destruct Hmore as (w1 & Hstart & Hrun1 & Ht1 & _); [lia|].
    destruct (continuations_finish batchSize env untimed (outcome env) (fun _ => True)
                (untimed_view env) db folder (map page_id pages) Hs ticks w1 1
                (Hany ticks) Hrun1) as (w & R & Hc & Hsum & HR);
      [lia|rewrite length_map; lia|rewrite length_map; lia|].
    exists w, R. eexists _, _. simpl. rewrite Hstart.
    split; [done|]. split; [done|]. split; [exact HF|]. split; [done|]. by rewrite HR.
Qed.

Lemma batch_run_matches_one_shot_export_witness :
  let env := listingEnv (pagesNamed twelveNames) alwaysSaves in
  ∃ w R, exportRun BATCH_SIZE env ["t0"; "t1"; "t2"] freshWorld = Returned w
         ∧ lastSummary (log w) = Some R.
Proof.
  intros env.
  destruct (batch_run_matches_one_shot_export BATCH_SIZE env "db-1" "folder-1"
              freshWorld "t0" ["t1"; "t2"]) as (w & R & w1 & F & H & Hsum & _).
  - unfold BATCH_SIZE. lia.
  - reflexivity.
  - reflexivity.
  - reflexivity.
  - vm_compute. discriminate.
  - intros page Hin. exists page. split; [|reflexivity].
    vm_compute in Hin.
    repeat (destruct Hin as [<-|Hin]; [vm_compute; reflexivity|]). destruct Hin.
  - vm_compute. lia.
  - exists w, R. split; [exact H|exact Hsum].
Defined.

(** ** The differential export: what it writes and what it returns *)

(** X8: the differential export writes nothing but its own two properties:
    whatever it returns, the API key, every property of a batch run and the
    triggers are as before; when it returns early (configuration or key
    missing, empty listing) the whole store is as before, and when it
    returns results the export time stamp is the clock reading. *)
Theorem differential_export_writes_own_keys_only env now w :
  let w' := (exportDifferentialNotionPages env now w).1 in
  let r := (exportDifferentialNotionPages env now w).2 in
  triggers w' = triggers w
  ∧ (∃ ts info, props w' = set_LAST_EXPORT_TIMESTAMP ts (set_PROCESSED_PAGES_INFO info (props w)))
  ∧ (r = None → props w' = props w)
  ∧ (r ≠ None → LAST_EXPORT_TIMESTAMP (props w') = Some now).
Proof.
  assert (Hself : ∀ p, p = set_LAST_EXPORT_TIMESTAMP (LAST_EXPORT_TIMESTAMP p)
                           (set_PROCESSED_PAGES_INFO (PROCESSED_PAGES_INFO p) p))
    by (by intros []).
  unfold exportDifferentialNotionPages.
  destruct (loadSettings env) as [notice|[db folder]]; simpl.
  { split; [done|]. split; [eexists _, _; apply Hself|done]. }
  destruct (truthy_text (NOTION_API_KEY (props w))); simpl;
    [|split; [done|]; split; [eexists _, _; apply Hself|done]].
  destruct (getNotionDatabasePages env db) as [|page pages];
    [split; [done|]; split; [eexists _, _; apply Hself|done]|].
  unfold exportListedPages. simpl.
  set (st := diffLoop _ _ _ _ _).
  assert (Hw : ds_world st = showAlert "差分エクスポートを開始します" w)
    by apply (inv_world _ _ _ (diffLoop_inv env now _ _ _)).
  rewrite Hw. simpl. split; [done|]. split; [by eexists _, _|]. split; [done|done].
Qed.

Lemma diffLoop_ids env now w pp done :
  map pageId (ds_results (diffLoop env now w pp done)) = map page_id done.
Proof.
  induction done as [|page done IH] using rev_ind; [done|].
  rewrite diffLoop_snoc, map_app. simpl. rewrite <- IH.
  unfold processDiffPage. by destruct (convertBlocksToGoogleDocs _ _ _ _); simpl; rewrite map_app.
Qed.

Lemma filter_partition_perm {A} (f : A → bool) (l : list A) :
  List.filter f l ++ List.filter (fun x => negb (f x)) l ≡ₚ l.
Proof.
  induction l as [|x l IH]; simpl; [done|].
  destruct (f x); simpl.
  - by rewrite IH.
  - rewrite <- Permutation_middle. by rewrite IH.
Qed.

Lemma count_app s (l1 l2 : list Result) : count s (l1 ++ l2) = count s l1 + count s l2.
Proof. unfold count. by rewrite List.filter_app, length_app. Qed.

Lemma count_none s (l : list Result) :
  Forall (fun r => status r ≠ s) l → count s l = 0.
Proof.
  unfold count. induction 1 as [|r l Hr _ IH]; simpl; [done|].
  destruct (status r), s; simpl; done.
Qed.

Lemma count_all s (l : list Result) :
  Forall (fun r => status r = s) l → count s l = length l.
Proof.
  unfold count. induction 1 as [|r l Hr _ IH]; simpl; [done|].
  rewrite Hr. destruct s; simpl; by rewrite IH.
Qed.

(** X9: the results of a differential export.  Every listed page gets
    exactly one result: first the processed pages in listing order, each
    Success or Fail, then the skipped pages in listing order; the three
    counts of the summary add up to the length of the listing, and the
    Skipped count is the number of pages the scan loop did not select. *)
Theorem differential_export_one_result_per_page env now w pages :
  let results := (exportListedPages env now w pages).2 in
  let pp := readProcessedPages (props w) in
  map pageId results =
    map page_id (List.filter (isNewOrUpdated pp) pages)
    ++ map page_id (List.filter (fun page => negb (isNewOrUpdated pp page)) pages)
  ∧ map pageId results ≡ₚ map page_id pages
  ∧ count Success results + count Fail results + count Skipped results = length pages
  ∧ count Skipped results
    = length (List.filter (fun page => negb (isNewOrUpdated pp page)) pages).
Proof.
  intros results pp. subst results. unfold exportListedPages. simpl. fold pp.
  set (w1 := showAlert _ w).
  set (st := diffLoop env now w1 pp _).
  pose proof (diffLoop_inv env now w1 pp (detectChanges now pp pages).1) as Hinv.
  pose proof (diffLoop_ids env now w1 pp (detectChanges now pp pages).1) as Hids.
  fold st in Hinv, Hids.
  assert (Hsk : Forall (fun r => status r = Skipped) (detectChanges now pp pages).2).
  { apply Forall_forall. intros r Hr%list_elem_of_In. by apply skipped_status in Hr. }
  assert (Hset : Forall settled (ds_results st)).
  { apply Forall_forall. intros r Hr%list_elem_of_In. by apply (inv_status _ _ _ Hinv). }
  assert (Hlen : length (ds_results st) = length (List.filter (isNewOrUpdated pp) pages)).
  { rewrite <- (length_map pageId), Hids, length_map. by rewrite detectChanges_fst. }
  assert (Hmap : map pageId (ds_results st ++ (detectChanges now pp pages).2) =
                 map page_id (List.filter (isNewOrUpdated pp) pages)
                 ++ map page_id (List.filter (fun page => negb (isNewOrUpdated pp page)) pages)).
  { rewrite map_app, Hids, detectChanges_fst, detectChanges_snd. f_equal.
    by rewrite map_map. }
  split; [exact Hmap|]. split.
  { rewrite Hmap, <- map_app. by rewrite filter_partition_perm. }
  rewrite !count_app.
  rewrite (count_all Skipped _ Hsk).
  rewrite (count_none Skipped (ds_results st)).
  2:{ eapply Forall_impl; [exact Hset|]. intros r [Hr|Hr]; rewrite Hr; done. }
  rewrite (count_none Success (detectChanges now pp pages).2).
  2:{ eapply Forall_impl; [exact Hsk|]. intros r ->. done. }
  rewrite (count_none Fail (detectChanges now pp pages).2).
  2:{ eapply Forall_impl; [exact Hsk|]. intros r ->. done. }
  pose proof (count_settled _ Hset) as Hc.
  assert (Hsklen : length (detectChanges now pp pages).2 =
                   length (List.filter (fun page => negb (isNewOrUpdated pp page)) pages)).
  { by rewrite detectChanges_snd, length_map. }
  split; [|lia].
  pose proof (Permutation_length (filter_partition_perm (isNewOrUpdated pp) pages)) as Hp.
  rewrite length_app in Hp. lia.
Qed.

Lemma diffLoop_keeps_entries env now w pp done :
  let st := diffLoop env now w pp done in
  (∀ id, ¬ In id (map page_id done) → ds_processedPages st !! id = pp !! id)
  ∧ (∀ id, is_Some (pp !! id) → is_Some (ds_processedPages st !! id)).
Proof.
  induction done as [|page done IH] using rev_ind; [done|].
  simpl. rewrite diffLoop_snoc. destruct IH as [Hframe Hkeep].
  unfold processDiffPage.
  destruct (convertBlocksToGoogleDocs _ _ _ _) as [msg file|msg]; simpl; split.
  - intros id Hid. rewrite map_app, in_app_iff in Hid. simpl in Hid.
    rewrite lookup_insert_ne by tauto. apply Hframe. tauto.
  - intros id Hid. destruct (decide (page_id page = id)) as [->|Hne].
    + rewrite lookup_insert_eq. by eexists.
    + rewrite lookup_insert_ne by done. by apply Hkeep.
  - intros id Hid. rewrite map_app, in_app_iff in Hid. apply Hframe. tauto.
  - done.
Qed.

(** X10: the differential export never forgets an exported page.  After an
    export over [pages], every id that had an ItemState entry still has
    one, and the entry of every id that is not listed is unchanged. *)
Theorem differential_export_keeps_entries env now w pages :
  let pp := readProcessedPages (props w) in
  ∃ pp', PROCESSED_PAGES_INFO (props (exportListedPages env now w pages).1) = Some (Encoded pp')
         ∧ (∀ id, is_Some (pp !! id) → is_Some (pp' !! id))
         ∧ (∀ id, ¬ In id (map page_id pages) → pp' !! id = pp !! id).
Proof.
  intros pp. unfold exportListedPages. simpl. fold pp.
  set (w1 := showAlert _ w).
  destruct (diffLoop_keeps_entries env now w1 pp (detectChanges now pp pages).1)
    as [Hframe Hkeep].
  eexists. split; [reflexivity|]. split; [exact Hkeep|].
  intros id Hid. apply Hframe. intros Hin. apply Hid.
  rewrite detectChanges_fst in Hin.
  apply in_map_iff in Hin as (page & <- & [Hin _]%filter_In). by apply in_map.
Qed.

Lemma nothing_known_all_new pages :
  List.filter (isNewOrUpdated ∅) pages = pages
  ∧ List.filter (fun page => negb (isNewOrUpdated ∅ page)) pages = [].
Proof.
  induction pages as [|page pages [IH1 IH2]]; [done|].
  simpl. unfold isNewOrUpdated at 1 3. rewrite lookup_empty. simpl.
  by rewrite IH1, IH2.
Qed.

(** X11: after [resetDifferentialExportData], and likewise when the stored
    ItemState text does not parse, the next export treats every listed page
    as new: nothing is skipped, and there is one Success or Fail result per
    listed page, in listing order. *)
Theorem export_after_reset_processes_every_page env now w pages raw :
  let fresh w0 :=
    let results := (exportListedPages env now w0 pages).2 in
    map pageId results = map page_id pages
    ∧ Forall settled results
    ∧ count Skipped results = 0 in
  fresh (resetDifferentialExportData w)
  ∧ fresh (with_props (set_PROCESSED_PAGES_INFO (Some (Unparseable raw))) w).
Proof.
  assert (H : ∀ w0, readProcessedPages (props w0) = ∅ →
            let results := (exportListedPages env now w0 pages).2 in
            map pageId results = map page_id pages
            ∧ Forall settled results ∧ count Skipped results = 0).
  { intros w0 Hempty results.
    destruct (differential_export_one_result_per_page env now w0 pages)
      as (Hids & _ & _ & Hsk).
    fold results in Hids, Hsk. rewrite Hempty in Hids, Hsk.
    destruct (nothing_known_all_new pages) as [H1 H2].
    rewrite H1, H2 in Hids. rewrite H2 in Hsk. simpl in Hids, Hsk.
    rewrite app_nil_r in Hids. split; [done|]. split; [|done].
    subst results. unfold exportListedPages. simpl. rewrite Hempty.
    rewrite detectChanges_snd, H2. simpl. rewrite app_nil_r.
    apply Forall_forall. intros r Hr%list_elem_of_In.
    by apply (inv_status _ _ _ (diffLoop_inv env now _ _ _)) in Hr. }
  intros fresh. split; apply H; reflexivity.
Qed.

Lemma diffLoop_results env now w pp done :
  NoDup (map page_id done) →
  ds_results (diffLoop env now w pp done) = map (diffResult env now pp) done.
Proof.
  induction done as [|page done IH] using rev_ind; intros Hnd; [done|].
  rewrite map_app in Hnd. simpl in Hnd.
  apply NoDup_app in Hnd as (Hnd & Hfresh & _).
  rewrite diffLoop_snoc, map_app. simpl. rewrite <- (IH Hnd).
  destruct (diffLoop_keeps_entries env now w pp done) as [Hframe _].
  assert (Hl : ds_processedPages (diffLoop env now w pp done) !! page_id page = pp !! page_id page).
  { apply Hframe. intros Hin. apply (Hfresh (page_id page)).
    - by apply list_elem_of_In.
    - apply list_elem_of_here. }
  unfold processDiffPage, diffResult. rewrite Hl.
  by destruct (convertBlocksToGoogleDocs _ _ _ _).
Qed.

(** X12: update in place.  When the listed ids are pairwise distinct, each
    page selected by the scan loop is converted against the document that
    ItemState recorded for it before the run (none for a new page), whatever
    the pages handled before it did: the processed part of the results is
    the per-page result mapped over the selected pages. *)
Theorem differential_export_updates_recorded_document env now w pages :
  NoDup (map page_id pages) →
  let pp := readProcessedPages (props w) in
  (exportListedPages env now w pages).2 =
    map (diffResult env now pp) (List.filter (isNewOrUpdated pp) pages)
    ++ map (skippedResult now pp)
         (List.filter (fun page => negb (isNewOrUpdated pp page)) pages).
Proof.
  intros Hnd pp. unfold exportListedPages. simpl. fold pp.
  rewrite detectChanges_snd. f_equal.
  rewrite diffLoop_results; rewrite detectChanges_fst; [done|].
  by apply NoDup_map_filter.
Qed.

Lemma differential_export_updates_recorded_document_witness :
  let env := listingEnv exampleListing alwaysSaves in
  map pageId (exportListedPages env "t" worldWithExampleState exampleListing).2
  = ["B"; "C"; "A"].
Proof.
  intros env.
  rewrite (differential_export_updates_recorded_document env "t" worldWithExampleState
             exampleListing).
  - reflexivity.
  - refine (bool_decide_unpack _ _). vm_compute. exact I.
Defined.

(** ** Settings and page titles *)

Lemma nonempty_true s : nonempty s = true ↔ s ≠ "".
Proof.
  unfold nonempty. rewrite negb_true_iff. split.
  - intros H ->. by rewrite String.eqb_refl in H.
  - intros H. by apply String.eqb_neq.
Qed.

Lemma readSettingRow_cases acc row :
  (databaseRow row ∧ readSettingRow acc row = (row.2, acc.2))
  ∨ (¬ databaseRow row ∧ folderRow row ∧ readSettingRow acc row = (acc.1, row.2))
  ∨ (¬ databaseRow row ∧ ¬ folderRow row ∧ readSettingRow acc row = acc).
Proof.
  destruct acc as [d f], row as [key value]. unfold readSettingRow, databaseRow, folderRow. simpl.
  destruct (String.eqb_spec key "NotionデータベースID") as [->|Hk1];
    destruct (nonempty value) eqn:Hv; simpl.
  - destruct (String.eqb_spec value "ここにデータベースIDを入力") as [->|Hp]; simpl.
    + right. right. repeat split; [tauto|intros (Hk & _); discriminate Hk].
    + left. apply nonempty_true in Hv. done.
  - right. right. assert (value = "") as ->.
    { destruct (String.eqb_spec value ""); [done|]. unfold nonempty in Hv.
      apply negb_false_iff, String.eqb_eq in Hv. done. }
    repeat split; [tauto|intros (Hk & _); discriminate Hk].
  - destruct (String.eqb_spec key "Google DriveフォルダID") as [->|Hk2]; simpl.
    + destruct (String.eqb_spec value "ここにフォルダIDを入力") as [->|Hp]; simpl.
      * right. right. repeat split; [tauto|tauto].
      * right. left. apply nonempty_true in Hv. repeat split; [tauto|done|done].
    + right. right. repeat split; tauto.
  - rewrite andb_false_r. right. right.
    assert (value = "") as ->.
    { unfold nonempty in Hv. by apply negb_false_iff, String.eqb_eq in Hv. }
    repeat split; tauto.
Qed.

Lemma readSettings_fold rows : ∀ d0 f0,
  let r := fold_left readSettingRow rows (d0, f0) in
  ((r.1 = d0 ∧ ¬ ∃ row, In row rows ∧ databaseRow row)
   ∨ (∃ row, In row rows ∧ databaseRow row ∧ r.1 = row.2))
  ∧ ((r.2 = f0 ∧ ¬ ∃ row, In row rows ∧ folderRow row)
     ∨ (∃ row, In row rows ∧ folderRow row ∧ r.2 = row.2)).
Proof.
  induction rows as [|row rows IH] using rev_ind; intros d0 f0; simpl.
  - split; left; (split; [done|]); intros (row & [] & _).
  - rewrite fold_left_app. simpl.
    destruct (IH d0 f0) as [Hd Hf]. clear IH.
    set (acc := fold_left readSettingRow rows (d0, f0)) in *.
    assert (Hmono : ∀ P : string * string → Prop,
              (∃ r, In r rows ∧ P r) → ∃ r, In r (rows ++ [row]) ∧ P r).
    { intros P (r & Hin & HP). exists r. split; [apply in_or_app; by left|done]. }
    assert (Hhere : In row (rows ++ [row])) by (apply in_or_app; right; by left).
    assert (Hsplit : ∀ P : string * string → Prop, ¬ P row →
              ¬ (∃ r, In r rows ∧ P r) → ¬ ∃ r, In r (rows ++ [row]) ∧ P r).
    { intros P Hrow Hno (r & [Hin|[<-|[]]]%in_app_or & HP); [apply Hno; eauto|done]. }
    destruct (readSettingRow_cases acc row) as [[Hdb ->]|[(Hndb & Hfr & ->)|(Hndb & Hnfr & ->)]];
      simpl.
    + split; [right; by exists row|].
      destruct Hf as [[Hf Hno]|(r & Hin & HP & Hf)].
      * left. split; [done|]. apply Hsplit; [|done].
        intros [Hk _]. destruct Hdb as [Hk' _]. rewrite Hk' in Hk. discriminate.
      * right. exists r. split; [apply in_or_app; by left|done].
    + split; [|right; by exists row].
      destruct Hd as [[Hd Hno]|(r & Hin & HP & Hd)].
      * left. split; [done|]. by apply Hsplit.
      * right. exists r. split; [apply in_or_app; by left|done].
    + split.
      * destruct Hd as [[Hd Hno]|(r & Hin & HP & Hd)].
        -- left. split; [done|]. by apply Hsplit.
        -- right. exists r. split; [apply in_or_app; by left|done].
      * destruct Hf as [[Hf Hno]|(r & Hin & HP & Hf)].
        -- left. split; [done|]. by apply Hsplit.
        -- right. exists r. split; [apply in_or_app; by left|done].
Qed.

(** X13: [loadSettings] succeeds exactly when the rows read from the
    settings sheet hold a filled-in database id and a filled-in folder id;
    the ids it returns are the values of such rows, so never empty and never
    the placeholder texts. *)
Theorem loadSettings_accepts_filled_rows_only env :
  (∀ db folder,
      loadSettings env = inr (db, folder) →
      ∃ rows, spreadsheet env = SettingsRows rows
              ∧ In ("NotionデータベースID", db) rows
              ∧ In ("Google DriveフォルダID", folder) rows
              ∧ databaseRow ("NotionデータベースID", db)
              ∧ folderRow ("Google DriveフォルダID", folder))
  ∧ (∀ rows,
      spreadsheet env = SettingsRows rows →
      (∃ row, In row rows ∧ databaseRow row) →
      (∃ row, In row rows ∧ folderRow row) →
      ∃ db folder, loadSettings env = inr (db, folder)).
Proof.
  unfold loadSettings. split.
  - intros db folder. destruct (spreadsheet env) as [| |rows]; [done|done|].
    destruct (readSettings_fold rows "" "") as [Hd Hf].
    destruct (fold_left readSettingRow rows ("", "")) as [d f]. simpl in Hd, Hf.
    destruct (nonempty d) eqn:Hnd; [|done].
    destruct (nonempty f) eqn:Hnf; [|done]. simpl.
    intros [= <- <-]. exists rows. split; [done|].
    apply nonempty_true in Hnd. apply nonempty_true in Hnf.
    destruct Hd as [[Hd _]|([k v] & Hin & (Hk & Hv) & Hd)]; [done|].
    destruct Hf as [[Hf _]|([k' v'] & Hin' & (Hk' & Hv') & Hf)]; [done|].
    simpl in *. subst. done.
  - intros rows -> Hdb Hfo.
    destruct (readSettings_fold rows "" "") as [Hd Hf].
    destruct (fold_left readSettingRow rows ("", "")) as [d f]. simpl in Hd, Hf.
    destruct Hd as [[_ Hno]|(r & _ & (_ & Hv & _) & Hd)]; [done|].
    destruct Hf as [[_ Hno]|(r' & _ & (_ & Hv' & _) & Hf)]; [done|].
    rewrite <- Hd in Hv. rewrite <- Hf in Hv'.
    apply nonempty_true in Hv. apply nonempty_true in Hv'. rewrite Hv, Hv'. simpl.
    by exists d, f.
Qed.

Lemma loadSettings_accepts_filled_rows_only_witness :
  databaseRow ("NotionデータベースID", "db-1").
Proof.
  destruct (loadSettings_accepts_filled_rows_only (listingEnv [] alwaysSaves)) as [H _].
  destruct (H "db-1" "folder-1" eq_refl) as (rows & _ & _ & _ & Hdb & _).
  exact Hdb.
Defined.

Lemma findTitle_none ps :
  (∀ entry, In entry ps → ¬ titleProperty entry.2) → findTitle ps = None.
Proof.
  induction ps as [|[name prop] ps IH]; simpl; intros H; [done|].
  assert (Hp : ¬ titleProperty prop) by (apply (H (name, prop)); by left).
  assert (IH' : findTitle ps = None) by (apply IH; intros; apply H; by right).
  unfold titleProperty in Hp.
  destruct (prop_title prop) as [|t ts]; [done|].
  destruct (String.eqb_spec (prop_type prop) "title") as [Ht|Ht]; [|done].
  destruct Hp. done.
Qed.

Lemma findTitle_first before name prop after :
  (∀ entry, In entry before → ¬ titleProperty entry.2) →
  titleProperty prop →
  findTitle (before ++ (name, prop) :: after) = Some (String.concat "" (prop_title prop)).
Proof.
  intros Hb [Ht Hne]. induction before as [|[n p] before IH]; simpl.
  - destruct (prop_title prop) as [|t ts]; [done|]. by rewrite Ht.
  - assert (Hp : ¬ titleProperty p) by (apply (Hb (n, p)); by left).
    assert (IH' := IH (fun e He => Hb e (or_intror He))).
    unfold titleProperty in Hp.
    destruct (prop_title p) as [|t ts]; [done|].
    destruct (String.eqb_spec (prop_type p) "title") as [Hpt|Hpt]; [|done].
    destruct Hp. done.
Qed.

Lemma substring_length_le n s : String.length (substring 0 n s) ≤ n.
Proof.
  revert s. induction n as [|n IH]; intros [|c s]; simpl; try lia.
  specialize (IH s). lia.
Qed.

Lemma substring_chars n s :
  list_ascii_of_string (substring 0 n s) = take n (list_ascii_of_string s).
Proof.
  revert s. induction n as [|n IH]; intros [|c s]; simpl; try done.
  by rewrite IH.
Qed.

Lemma remove_hyphens_chars s :
  ¬ In "-"%char (list_ascii_of_string (remove_hyphens s)).
Proof.
  induction s as [|c s IH]; simpl; [tauto|].
  destruct (Ascii.eqb_spec c "-") as [->|Hc]; [done|]. simpl.
  intros [H|H]; [done|by apply IH].
Qed.

(** X14: the title of a page is the concatenated text of the first property,
    in enumeration order, that has type [title] and a non-empty title array;
    when no property qualifies it is [Page_] followed by at most eight
    characters of the page id, none of them a hyphen. *)
Theorem getPageTitle_first_title_or_fallback page :
  (∀ before name prop after,
      properties page = before ++ (name, prop) :: after →
      (∀ entry, In entry before → ¬ titleProperty entry.2) →
      titleProperty prop →
      getPageTitle page = String.concat "" (prop_title prop))
  ∧ ((∀ entry, In entry (properties page) → ¬ titleProperty entry.2) →
     ∃ short, getPageTitle page = "Page_" +:+ short
              ∧ short = substring 0 8 (remove_hyphens (page_id page))
              ∧ String.length short ≤ 8
              ∧ ¬ In "-"%char (list_ascii_of_string short)).
Proof.
  split.
  - intros before name prop after Hps Hb Hp.
    unfold getPageTitle. rewrite Hps, (findTitle_first before name prop after Hb Hp). done.
  - intros Hnone. unfold getPageTitle. rewrite (findTitle_none _ Hnone). simpl.
    eexists. split; [reflexivity|]. split; [reflexivity|].
    split; [apply substring_length_le|].
    rewrite substring_chars. intros Hin%list_elem_of_In.
    apply elem_of_take in Hin as (i & Hi & _).
    apply (remove_hyphens_chars (page_id page)), list_elem_of_In.
    by apply list_elem_of_lookup_2 in Hi.
Qed.

Lemma getPageTitle_first_title_or_fallback_witness :
  getPageTitle (mkPage "1f2e3d4c-5b6a-7988-a1b2-c3d4e5f60718" JUndefined
                  [("Tags", mkProperty "multi_select" []);
                   ("Name", mkProperty "title" ["Road"; "map"])])
  = "Roadmap".
Proof.
  destruct (getPageTitle_first_title_or_fallback
              (mkPage "1f2e3d4c-5b6a-7988-a1b2-c3d4e5f60718" JUndefined
                 [("Tags", mkProperty "multi_select" []);
                  ("Name", mkProperty "title" ["Road"; "map"])])) as [H _].
  rewrite (H [("Tags", mkProperty "multi_select" [])] "Name"
             (mkProperty "title" ["Road"; "map"]) []).
  - reflexivity.
  - reflexivity.
  - intros entry [<-|[]] [Ht _]. discriminate Ht.
  - split; [reflexivity|discriminate].
Defined.

(** ** Image types and extensions *)

Lemma beforeQuery_without s : without "?" s → beforeQuery s = s.
Proof.
  induction s as [|c s IH]; simpl; [done|]. intros [Hc Hs].
  destruct (Ascii.eqb_spec c "?"); [done|]. by rewrite IH.
Qed.

Lemma beforeQuery_app s query :
  without "?" s → beforeQuery (s +:+ String "?" query) = s.
Proof.
  induction s as [|c s IH]; simpl; [done|]. intros [Hc Hs].
  destruct (Ascii.eqb_spec c "?"); [done|]. by rewrite IH.
Qed.

Lemma without_app c s t : without c s → without c t → without c (s +:+ t).
Proof. induction s; simpl; [done|]. intros [? ?] ?. split; [done|]. by apply IHs. Qed.

Lemma hasDot_without s : without "." s → hasDot s = false.
Proof.
  induction s as [|c s IH]; simpl; [done|]. intros [Hc Hs].
  destruct (Ascii.eqb_spec c "."); [done|]. by apply IH.
Qed.

Lemma hasDot_app s ext : hasDot (s +:+ String "." ext) = true.
Proof. induction s as [|c s IH]; simpl; [done|]. rewrite IH. apply orb_true_r. Qed.

Lemma lastPart_app s ext :
  without "." ext → lastPart (s +:+ String "." ext) = ext.
Proof.
  intros Hext. induction s as [|c s IH]; simpl.
  - by rewrite (hasDot_without ext).
  - by rewrite hasDot_app.
Qed.

Lemma dotted_query_assoc prefix ext query :
  (prefix +:+ String "." ext) +:+ String "?" query
  = prefix +:+ String "." ext +:+ String "?" query.
Proof.
  induction prefix as [|c s IH]; [reflexivity|].
  change (String c ((s +:+ String "." ext) +:+ String "?" query)
          = String c (s +:+ String "." ext +:+ String "?" query)).
  by rewrite IH.
Qed.

Lemma guess_dotted prefix ext :
  without "?" prefix → without "?" ext → without "." ext →
  guessMimeTypeFromUrl (prefix +:+ String "." ext) = mimeOfExtension (toLowerCase ext).
Proof.
  intros Hp He Hd. unfold guessMimeTypeFromUrl.
  rewrite beforeQuery_without by (apply without_app; [done|by split]).
  by rewrite hasDot_app, lastPart_app.
Qed.

Lemma guess_query url query :
  without "?" url →
  guessMimeTypeFromUrl (url +:+ String "?" query) = guessMimeTypeFromUrl url.
Proof.
  intros Hu. unfold guessMimeTypeFromUrl.
  by rewrite beforeQuery_app, beforeQuery_without.
Qed.

(** X15 (guessMimeTypeFromUrl).  The type guessed for an image address
    depends only on the text between the last dot of the part before the
    first question mark and that question mark, read without regard to the
    case of its letters: whatever precedes that dot and whatever follows the
    question mark, dots included, has no effect.  An address with no dot
    before its first question mark is taken for a JPEG. *)
Theorem guessMimeTypeFromUrl_reads_last_extension (prefix ext query : string) :
  without "?" prefix → without "?" ext → without "." ext →
  guessMimeTypeFromUrl (prefix +:+ String "." ext) = mimeOfExtension (toLowerCase ext)
  ∧ guessMimeTypeFromUrl (prefix +:+ String "." ext +:+ String "?" query)
    = mimeOfExtension (toLowerCase ext)
  ∧ (without "." prefix →
     guessMimeTypeFromUrl (prefix +:+ String "?" (ext +:+ String "." query)) = "image/jpeg").
Proof.
  intros Hp He Hd. split; [by apply guess_dotted|]. split.
  - replace (prefix +:+ String "." ext +:+ String "?" query)
      with ((prefix +:+ String "." ext) +:+ String "?" query).
    + rewrite guess_query by (apply without_app; [done|by split]).
      by apply guess_dotted.
    + apply dotted_query_assoc.
  - intros Hnd. rewrite guess_query by done.
    unfold guessMimeTypeFromUrl. rewrite beforeQuery_without by done.
    by rewrite hasDot_without.
Qed.

Lemma guessMimeTypeFromUrl_reads_last_extension_witness :
  guessMimeTypeFromUrl "https://files.example/a.b/photo.PNG?sig=x.gif" = "image/png".
Proof.
  refine (proj1 (proj2 (guessMimeTypeFromUrl_reads_last_extension
    "https://files.example/a.b/photo" "PNG" "sig=x.gif" _ _ _)));
    vm_compute; repeat split; discriminate.
Defined.

(** X16 (guessMimeTypeFromUrl, mimeTypeToExtension).  The extension under
    which an image is stored, computed from the type guessed for its address,
    is always one of the seven extensions [jpg], [png], [gif], [webp], [svg],
    [bmp], [tiff].  It is the extension of the address, lowered, when that is
    one of the seven; [tif] gives [tiff]; every other extension, those of the
    types the guess does recognise ([ico], [heic], [heif], [avif]) included,
    gives [jpg]. *)
Theorem image_file_extension_from_url (prefix ext query : string) :
  without "?" prefix → without "?" ext → without "." ext →
  In (mimeTypeToExtension
        (guessMimeTypeFromUrl (prefix +:+ String "." ext +:+ String "?" query)))
     storedExtensions
  ∧ (In (toLowerCase ext) storedExtensions →
     mimeTypeToExtension
       (guessMimeTypeFromUrl (prefix +:+ String "." ext +:+ String "?" query))
     = toLowerCase ext)
  ∧ (toLowerCase ext = "tif" →
     mimeTypeToExtension
       (guessMimeTypeFromUrl (prefix +:+ String "." ext +:+ String "?" query))
     = "tiff")
  ∧ (¬ In (toLowerCase ext) ("tif" :: storedExtensions) →
     mimeTypeToExtension
       (guessMimeTypeFromUrl (prefix +:+ String "." ext +:+ String "?" query))
     = "jpg").
Proof.
  intros Hp He Hd.
  replace (prefix +:+ String "." ext +:+ String "?" query)
    with ((prefix +:+ String "." ext) +:+ String "?" query)
    by apply dotted_query_assoc.
  rewrite guess_query by (apply without_app; [done|by split]).
  rewrite guess_dotted by done.
  generalize (toLowerCase ext) as e. intros e. repeat split.
  - unfold mimeTypeToExtension, storedExtensions.
    repeat match goal with
           | |- context [String.eqb ?a ?b] => destruct (String.eqb a b)
           end; simpl; tauto.
  - unfold storedExtensions. simpl.
    intros [<-|[<-|[<-|[<-|[<-|[<-|[<-|[]]]]]]]]; reflexivity.
  - by intros ->.
  - intros Hnot. unfold mimeOfExtension.
    repeat match goal with
           | |- context [String.eqb e ?s] =>
               destruct (String.eqb_spec e s) as [->|?]
           end; simpl; try reflexivity;
      exfalso; apply Hnot; unfold storedExtensions; simpl; tauto.
Qed.

Lemma image_file_extension_from_url_witness :
  mimeTypeToExtension (guessMimeTypeFromUrl "https://files.example/icon.HEIC?v=2") = "jpg".
Proof.
  refine (proj2 (proj2 (proj2 (image_file_extension_from_url
    "https://files.example/icon" "HEIC" "v=2" _ _ _))) _);
    vm_compute; repeat split; try discriminate.
  intros H. repeat (destruct H as [H|H]; [discriminate H|]). exact H.
Defined.

(** ** File names *)

Lemma safe_char (c : ascii) :
  forbiddenInFileName (if forbiddenInFileName c then "_"%char else c) = false.
Proof. by destruct (forbiddenInFileName c) eqn:E. Qed.

(** X17 (convertBlocksToGoogleDocs, safeFileName).  The file name made from
    a page title has the length of the title and none of the nine characters
    the pattern excludes; a title without any of them is its own file name,
    so making a file name of a file name changes nothing. *)
Theorem safeFileName_replaces_forbidden_characters (pageTitle : string) :
  String.length (safeFileName pageTitle) = String.length pageTitle
  ∧ (∀ c, In c (list_ascii_of_string (safeFileName pageTitle)) →
          forbiddenInFileName c = false)
  ∧ ((∀ c, In c (list_ascii_of_string pageTitle) → forbiddenInFileName c = false) →
     safeFileName pageTitle = pageTitle)
  ∧ safeFileName (safeFileName pageTitle) = safeFileName pageTitle.
Proof.
  induction pageTitle as [|c t (IHlen & IHno & IHid & IHidem)]; [by repeat split|].
  repeat split.
  - simpl. by rewrite IHlen.
  - intros x [<-|Hx]; [apply safe_char|by apply IHno].
  - intros Hall. simpl. rewrite (Hall c) by (by left).
    rewrite IHid; [done|]. intros x Hx. apply Hall. by right.
  - simpl. rewrite safe_char, IHidem. done.
Qed.

(** ** Rich text *)

Lemma appendedText_app (a b : list TextCall) :
  appendedText (a ++ b) = appendedText a ++ appendedText b.
Proof. unfold appendedText. by rewrite map_app, concat_app. Qed.

Lemma appendedText_textCalls o textObj :
  appendedText (textCalls o textObj) = contentOf textObj.
Proof.
  unfold textCalls, appendedText.
  destruct (annotations textObj) as [a|]; simpl; [|by rewrite app_nil_r].
  destruct (attributesOf a), (contentOf textObj) as [|u us] eqn:E,
    (href textObj) as [url|]; simpl; try destruct (nonempty url);
    simpl; by rewrite ?app_nil_r.
Qed.

Lemma appendedText_richTextCalls o rich :
  appendedText (richTextCalls o rich) = concat (map contentOf rich).
Proof.
  revert o. induction rich as [|t rich IH]; intros o; [done|].
  cbn [richTextCalls map concat].
  by rewrite appendedText_app, appendedText_textCalls, IH.
Qed.

Lemma range_in_textCalls o textObj call s e :
  In call (textCalls o textObj) → isRange call s e →
  contentOf textObj ≠ [] ∧ s = o ∧ S e = o + length (contentOf textObj).
Proof.
  unfold textCalls, isRange. intros Hin Hr.
  destruct Hin as [<-|Hin]; [by destruct Hr as [[? ?]|[? ?]]|].
  destruct (annotations textObj) as [a|]; [|done].
  destruct (contentOf textObj) as [|u us] eqn:E.
  { destruct (attributesOf a), (href textObj); simpl in Hin; done. }
  apply in_app_or in Hin as [Hin|Hin].
  - destruct (attributesOf a); [done|]. destruct Hin as [<-|[]].
    destruct Hr as [[? Hr]|[? Hr]]; [|done]. injection Hr as <- <- _.
    simpl. repeat split; [done|lia].
  - destruct (href textObj) as [url|]; [|done].
    destruct (nonempty url); [|done]. destruct Hin as [<-|[]].
    destruct Hr as [[? Hr]|[? Hr]]; [done|]. injection Hr as <- <- _.
    simpl. repeat split; [done|lia].
Qed.

Lemma range_in_richTextCalls o rich call s e :
  In call (richTextCalls o rich) → isRange call s e →
  ∃ before textObj after,
    rich = before ++ textObj :: after
    ∧ contentOf textObj ≠ []
    ∧ s = o + length (concat (map contentOf before))
    ∧ S e = s + length (contentOf textObj).
Proof.
  revert o. induction rich as [|t rich IH]; intros o Hin Hr; [done|].
  cbn [richTextCalls] in Hin. apply in_app_or in Hin as [Hin|Hin].
  - destruct (range_in_textCalls _ _ _ _ _ Hin Hr) as (Hne & -> & He).
    exists [], t, rich. simpl. repeat split; [done|lia|lia].
  - destruct (IH _ Hin Hr) as (before & t' & after & -> & Hne & -> & He).
    exists (t :: before), t', after. simpl.
    rewrite length_app. repeat split; [done|lia|lia].
Qed.

(** X18 (appendRichTextToDoc).  Every attribute range and every link range
    set while appending rich text belongs to one run of the array with
    non-empty text: it starts at the total length of the runs before it and
    ends, inclusively, at that run's last code unit, so that within the text
    appended by the call the range holds exactly the text of its run.  The
    offsets are counted from the first code unit appended. *)
Theorem styled_range_covers_its_run (richTextArray : list TextObj)
    (call : TextCall) (s e : nat) :
  In call (appendRichTextToDoc richTextArray) →
  isRange call s e →
  ∃ before textObj after,
    richTextArray = before ++ textObj :: after
    ∧ contentOf textObj ≠ []
    ∧ s = length (concat (map contentOf before))
    ∧ S e = s + length (contentOf textObj)
    ∧ take (S e - s) (drop s (appendedText (appendRichTextToDoc richTextArray)))
      = contentOf textObj.
Proof.
  intros Hin Hr. unfold appendRichTextToDoc in *.
  destruct (range_in_richTextCalls _ _ _ _ _ Hin Hr)
    as (before & t & after & -> & Hne & Hs & He).
  exists before, t, after. simpl in Hs. repeat split; try done.
  rewrite appendedText_richTextCalls, map_app, concat_app. simpl.
  rewrite Hs, drop_app_length.
  replace (S e - length (concat (map contentOf before)))
    with (length (contentOf t)) by lia.
  by rewrite take_app_length.
Qed.

Lemma styled_range_covers_its_run_witness :
  ∃ before textObj after,
    [mkTextObj (Some [72; 105; 32]%N) None None;
     mkTextObj (Some [98; 111; 108; 100]%N)
       (Some (mkAnnotations true false false false false None)) None]
    = before ++ textObj :: after
    ∧ contentOf textObj ≠ []
    ∧ 3 = length (concat (map contentOf before))
    ∧ 7 = 3 + length (contentOf textObj)
    ∧ take (7 - 3) (drop 3 (appendedText (appendRichTextToDoc
        [mkTextObj (Some [72; 105; 32]%N) None None;
         mkTextObj (Some [98; 111; 108; 100]%N)
           (Some (mkAnnotations true false false false false None)) None])))
      = contentOf textObj.
Proof.
  apply (styled_range_covers_its_run _ (SetAttributes 3 6 [BOLD]) 3 6).
  - vm_compute. tauto.
  - left. by exists [BOLD].
Defined.

(** ** Lists *)

Section ListRuns.
Context {RichText Other : Type}.

Lemma renderBlocks_eq (blocks : list (DocBlock RichText Other)) :
  renderBlocks blocks = flushed (fold_left blockStep blocks (mkListBuffer [] [] None)).
Proof.
  unfold renderBlocks, flushed.
  destruct (currentListItems _); [|done]. unfold appendListItems. simpl.
  by rewrite app_nil_r.
Qed.

Lemma flushed_body (blocks : list (DocBlock RichText Other)) bd items ty :
  flushed (fold_left blockStep blocks (mkListBuffer bd items ty))
  = bd ++ flushed (fold_left blockStep blocks (mkListBuffer [] items ty)).
Proof.
  revert bd items ty. induction blocks as [|b blocks IH]; intros bd items ty.
  - reflexivity.
  - simpl. destruct b as [kind [text|]|o]; simpl.
    + apply IH.
    + apply IH.
    + destruct items as [|i items]; simpl.
      * rewrite IH. rewrite (IH [Rendered o]). by rewrite app_assoc.
      * rewrite IH. rewrite (IH (_ :: _)). by rewrite app_assoc.
Qed.

Lemma flushed_type_irrelevant (blocks : list (DocBlock RichText Other)) bd ty :
  flushed (fold_left blockStep blocks (mkListBuffer bd [] ty))
  = flushed (fold_left blockStep blocks (mkListBuffer bd [] None)).
Proof.
  revert bd. induction blocks as [|b blocks IH]; intros bd.
  - reflexivity.
  - simpl. destruct b as [kind [text|]|o]; simpl; [done|apply IH|apply IH].
Qed.

Lemma fold_blockStep_items (run : list (Glyph * option RichText))
    (bd : list (DocElement RichText Other)) items ty :
  fold_left blockStep (map (fun i => ListItemBlock i.1 i.2) run)
    (mkListBuffer bd items ty)
  = mkListBuffer bd (items ++ itemsOf run)
      (match last (itemsOf run) with
       | Some item => Some item.2
       | None => ty
       end).
Proof.
  revert items ty. induction run as [|[kind [text|]] run IH]; intros items ty.
  - simpl. by rewrite app_nil_r.
  - simpl. rewrite IH. rewrite <- app_assoc. simpl.
    change (itemsOf ((kind, Some text) :: run)) with ((text, kind) :: itemsOf run).
    rewrite last_cons. by destruct (last (itemsOf run)).
  - simpl. apply IH.
Qed.

(** X19 (convertBlocksToGoogleDocs, appendListItems).  The block loop keeps
    the order of the blocks and renders every list item that has text once:
    a block of another type splits the blocks into what is rendered before
    it and what is rendered after it.  A run of consecutive list items is
    rendered with one glyph for all of them, that of the last item of the
    run that has text, whether the items before it were bulleted or
    numbered. *)
Theorem list_run_rendered_with_glyph_of_its_last_item :
  (∀ (before after : list (DocBlock RichText Other)) (block : Other),
     renderBlocks (before ++ OtherBlock block :: after)
     = renderBlocks before ++ Rendered block :: renderBlocks after)
  ∧ (∀ run : list (Glyph * option RichText),
       renderBlocks (map (fun i => ListItemBlock (Other:=Other) i.1 i.2) run)
       = map (fun item : RichText * Glyph =>
                ListItem item.1 (default BULLET_GLYPH (snd <$> last (itemsOf run))))
           (itemsOf run)).
Proof.
  split.
  - intros before after block. rewrite !renderBlocks_eq, fold_left_app. simpl.
    destruct (fold_left blockStep before _) as [bd items ty] eqn:E.
    unfold flushed at 2. simpl.
    destruct items as [|i items]; simpl.
    + rewrite flushed_body, flushed_type_irrelevant.
      by rewrite app_nil_r, <- app_assoc.
    + rewrite flushed_body. rewrite <- !app_assoc. simpl.
      by rewrite <- app_assoc.
  - intros run. rewrite renderBlocks_eq, fold_blockStep_items.
    unfold flushed, appendListItems. simpl.
    by destruct (last (itemsOf run)) as [[text []]|].
Qed.

End ListRuns.

(** ** The key prompt *)

(** X20 (setApiKey, exportNotionToGoogleDrive, exportDifferentialNotionPages).
    The key prompt stores whatever text is confirmed, the empty text included,
    and leaves every other property as it was.  With a configuration present
    and a source that lists pages, an export that follows returns results
    exactly when the text stored was not empty: an empty key confirmed at the
    prompt replaces a good one and turns the exports away. *)
Theorem confirmed_key_admits_exports_iff_nonempty env now w apiKey db folder :
  loadSettings env = inr (db, folder) →
  getNotionDatabasePages env db ≠ [] →
  NOTION_API_KEY (props (setApiKey (Some apiKey) w)) = Some apiKey
  ∧ inProgress (props (setApiKey (Some apiKey) w)) = inProgress (props w)
  ∧ readProcessedPages (props (setApiKey (Some apiKey) w)) = readProcessedPages (props w)
  ∧ ((exportNotionToGoogleDrive env now (setApiKey (Some apiKey) w)).2 ≠ None
     ↔ apiKey ≠ "")
  ∧ ((exportDifferentialNotionPages env now (setApiKey (Some apiKey) w)).2 ≠ None
     ↔ apiKey ≠ "").
Proof.
  intros Hs Hp. split; [done|]. split; [done|]. split; [done|].
  unfold exportNotionToGoogleDrive, exportDifferentialNotionPages.
  rewrite Hs. simpl. unfold nonempty.
  destruct (getNotionDatabasePages env db) as [|page pages]; [done|].
  destruct (String.eqb_spec apiKey ""); simpl; split; split; try done.
Qed.

Lemma confirmed_key_admits_exports_iff_nonempty_witness :
  (exportDifferentialNotionPages (listingEnv exampleListing alwaysSaves)
     "2024-01-01T00:00:00.000Z"
     (setApiKey (Some "") worldWithExampleState)).2 = None.
Proof.
  destruct (confirmed_key_admits_exports_iff_nonempty
              (listingEnv exampleListing alwaysSaves)
              "2024-01-01T00:00:00.000Z" worldWithExampleState ""
              "db-1" "folder-1")
    as (_ & _ & _ & _ & Hd).
  - vm_compute. reflexivity.
  - vm_compute. discriminate.
  - destruct (exportDifferentialNotionPages _ _ _).2 eqn:E; [|done].
    exfalso. apply (proj1 Hd); [done|reflexivity].
Defined.
